(** * Stock analyzer: technical indicators and signal synthesis

    Shallow embedding of [src/app/api/stock/[symbol]/route.ts].

    Numbers.  The source computes on JavaScript numbers.  Here a JavaScript
    number is an exact rational in canonical form ([Qc], Leibniz equality),
    so the arithmetic is the real-number reading of the source; rounding of
    the binary64 format is not represented.  An array slot of type
    [number | null] is an [option Qc] with [None] for [null].  A lookback
    [period] is a [nat]; the comparisons that the source performs on
    [period - 1] are carried out in [Z] so that they do not truncate.  Every
    call site passes a positive literal period (9, 12, 14, 20, 26, 50, 200);
    at [period = 0] the source divides by zero and produces [NaN], which
    has no counterpart here. *)

From Stdlib Require Import String.
From Stdlib Require Import List ZArith QArith Qcanon Qround Lia Lqa Bool.
From Stdlib Require Import Sorting.Sorted Sorting.Permutation.
Import ListNotations.

Local Open Scope Qc_scope.

(** ** JavaScript primitives used by the source *)

Module Js.

(** Integer literal of the source as a number. *)
Definition num (z : Z) : Qc := Q2Qc (inject_Z z).

(** The literal [12.5]. *)
Definition twelve_and_half : Qc := Q2Qc (25 # 2).

Definition ltb (a b : Qc) : bool :=
  match a ?= b with Lt => true | _ => false end.

Definition gtb (a b : Qc) : bool := ltb b a.

Definition geb (a b : Qc) : bool := negb (ltb a b).

Definition eqb (a b : Qc) : bool :=
  match a ?= b with Eq => true | _ => false end.

(** [Math.min], [Math.max], [Math.abs] on numbers. *)
Definition min (a b : Qc) : Qc := if ltb b a then b else a.

Definition max (a b : Qc) : Qc := if ltb a b then b else a.

Definition abs (a : Qc) : Qc := if ltb a 0 then - a else a.

(** [Math.round]: nearest integer, halves rounded towards plus infinity. *)
Definition round (a : Qc) : Z := Qfloor (a + Q2Qc (1 # 2)).

(** [a.slice(s, e)], with the source's treatment of negative and
    out-of-range bounds. *)
Definition slice {A : Type} (a : list A) (s e : Z) : list A :=
  let len := Z.of_nat (length a) in
  let k := if (s <? 0)%Z then Z.max (len + s) 0 else Z.min s len in
  let fin := if (e <? 0)%Z then Z.max (len + e) 0 else Z.min e len in
  firstn (Z.to_nat (fin - k)) (skipn (Z.to_nat k) a).

(** [a.slice(-3)]. *)
Definition slice_from {A : Type} (a : list A) (s : Z) : list A :=
  slice a s (Z.of_nat (length a)).

(** [a.reduce((a, b) => a + b, 0)]. *)
Definition sum (a : list Qc) : Qc := fold_left Qcplus a 0.

(** A loop [for (let i = 0; i < n; i++) result.push(body(result, i))]
    over an initially empty [result]. *)
Definition for_push {A : Type} (n : nat) (body : list A -> nat -> A) : list A :=
  fold_left (fun result i => result ++ [body result i]) (seq 0 n) [].

(** [x || d] for [x] a [number | null | undefined] slot: the default is
    taken when the slot holds no number and also when it holds zero. *)
Definition or_else {A : Type} (inj : Qc -> A) (x : option Qc) (d : A) : A :=
  match x with
  | Some v => if eqb v 0 then d else inj v
  | None => d
  end.

(** [a[i]] for an index that may be negative or past the end; [None] is
    [undefined]. *)
Definition at_index {A : Type} (a : list A) (i : Z) : option A :=
  if (i <? 0)%Z then None else nth_error a (Z.to_nat i).

End Js.

(** The two outcomes of the comparison [a < b], with what each one says
    about the order of the operands. *)
Inductive ltb_cases (a b : Qc) : bool -> Prop :=
  | ltb_cases_lt : a < b -> ltb_cases a b true
  | ltb_cases_ge : b <= a -> ltb_cases a b false.

(** ** Moving averages *)

Definition calculateSMA (data : list Qc) (period : nat) : list (option Qc) :=
  Js.for_push (length data) (fun _ i =>
    if (Z.of_nat i <? Z.of_nat period - 1)%Z then None
    else
      let sum := Js.sum (Js.slice data (Z.of_nat i - Z.of_nat period + 1)
                                       (Z.of_nat i + 1)) in
      Some (sum / Js.num (Z.of_nat period))).

(** In the last branch the source reads [result[i - 1] as number]; for a
    positive period that slot always holds a number.  The other shapes of
    the slot arise only for [period = 0] and yield [None] here. *)
Definition calculateEMA (data : list Qc) (period : nat) : list (option Qc) :=
  let multiplier := Js.num 2 / (Js.num (Z.of_nat period) + 1) in
  Js.for_push (length data) (fun result i =>
    if (Z.of_nat i <? Z.of_nat period - 1)%Z then None
    else if (Z.of_nat i =? Z.of_nat period - 1)%Z then
      let sum := Js.sum (Js.slice data 0 (Z.of_nat period)) in
      Some (sum / Js.num (Z.of_nat period))
    else
      match Js.at_index result (Z.of_nat i - 1) with
      | Some (Some prevEma) =>
          Some ((nth i data 0 - prevEma) * multiplier + prevEma)
      | _ => None
      end).

(** ** Relative strength index *)

(** The inner loop [for (let j = i - period + 1; j <= i; j++)] of the
    simplified computation, returning the two accumulators
    [(avgGain, avgLoss)] before they are divided by the period.  The loop is
    entered only for [period <= i]. *)
Definition rsi_accumulate (closes : list Qc) (period i : nat) : Qc * Qc :=
  fold_left
    (fun (acc : Qc * Qc) j =>
       let (avgGain, avgLoss) := acc in
       if (0 <? j)%nat then
         let change := nth j closes 0 - nth (j - 1) closes 0 in
         if Js.gtb change 0 then (avgGain + change, avgLoss)
         else (avgGain, avgLoss + Js.abs change)
       else acc)
    (seq (i - period + 1) period) (0, 0).

(** The function first fills an array [result] by a recurrence and never
    reads it again; that computation has no effect on the returned
    [rsiResult] and is not reproduced. *)
Definition calculateRSI (closes : list Qc) (period : nat) : list (option Qc) :=
  Js.for_push (length closes) (fun _ i =>
    if (i <? period)%nat then None
    else
      let (g, l) := rsi_accumulate closes period i in
      let avgGain := g / Js.num (Z.of_nat period) in
      let avgLoss := l / Js.num (Z.of_nat period) in
      if Js.eqb avgLoss 0 then Some (Js.num 100)
      else
        let rs := avgGain / avgLoss in
        Some (Js.num 100 - Js.num 100 / (1 + rs))).

(** ** MACD *)

Record MACD : Type := mkMACD {
  macd : list (option Qc);
  signal : list (option Qc);
  histogram : list (option Qc)
}.

(** [macd.filter(v => v !== null)]. *)
Fixpoint filter_defined (a : list (option Qc)) : list Qc :=
  match a with
  | [] => []
  | Some v :: r => v :: filter_defined r
  | None :: r => filter_defined r
  end.

(** [a[i]] of a [(number | null)[]] with [null] and [undefined] merged. *)
Definition slot (a : list (option Qc)) (i : nat) : option Qc :=
  match nth_error a i with
  | Some v => v
  | None => None
  end.

Definition macd_line (closes : list Qc) : list (option Qc) :=
  let ema12 := calculateEMA closes 12 in
  let ema26 := calculateEMA closes 26 in
  Js.for_push (length closes) (fun _ i =>
    match slot ema12 i, slot ema26 i with
    | Some a, Some b => Some (a - b)
    | _, _ => None
    end).

(** One iteration of the loop that spreads [signalEma] back over the
    positions of [macd]; the state is the array [signal] and the counter
    [validIndex]. *)
Definition signal_step (macd signalEma : list (option Qc))
    (st : list (option Qc) * nat) (i : nat) : list (option Qc) * nat :=
  let (signal, validIndex) := st in
  match slot macd i with
  | None => (signal ++ [None], validIndex)
  | Some _ =>
      (signal ++ [Js.or_else Some (slot signalEma validIndex) None],
       S validIndex)
  end.

Definition signal_loop (macd signalEma : list (option Qc))
  : list (option Qc) * nat :=
  fold_left (signal_step macd signalEma) (seq 0 (length macd)) ([], 0%nat).

Definition calculateMACD (closes : list Qc) : MACD :=
  let macd := macd_line closes in
  let validMacd := filter_defined macd in
  let signalEma := calculateEMA validMacd 9 in
  let signal := fst (signal_loop macd signalEma) in
  let histogram :=
    Js.for_push (length macd) (fun _ i =>
      match slot macd i, slot signal i with
      | Some m, Some s => Some (m - s)
      | _, _ => None
      end) in
  mkMACD macd signal histogram.

(** ** Bollinger bands *)

Record Bollinger : Type := mkBollinger {
  upper : list (option Qc);
  middle : list (option Qc);
  lower : list (option Qc)
}.

Section Bands.

(** [Math.sqrt] is not a rational function; the bands are defined for any
    choice of it. *)
Variable sqrt : Qc -> Qc.

(** One band, [upper] with [side = +] and [lower] with [side = -].  The
    source reads [middle[i] as number] where [period - 1 <= i], a slot that
    [calculateSMA] has filled with a number. *)
Definition band (closes : list Qc) (middle : list (option Qc))
    (period : nat) (stdDev : Qc) (side : Qc -> Qc -> Qc) : list (option Qc) :=
  Js.for_push (length closes) (fun _ i =>
    if (Z.of_nat i <? Z.of_nat period - 1)%Z then None
    else
      let slice := Js.slice closes (Z.of_nat i - Z.of_nat period + 1)
                                   (Z.of_nat i + 1) in
      match slot middle i with
      | Some mean =>
          let squaredDiffs := map (fun v => (v - mean) * (v - mean)) slice in
          let std := sqrt (Js.sum squaredDiffs / Js.num (Z.of_nat period)) in
          Some (side mean (stdDev * std))
      | None => None
      end).

Definition calculateBollingerBands (closes : list Qc) (period : nat)
    (stdDev : Qc) : Bollinger :=
  let middle := calculateSMA closes period in
  mkBollinger (band closes middle period stdDev Qcplus)
              middle
              (band closes middle period stdDev Qcminus).

End Bands.

(** ** Support and resistance levels *)

(** Comparison of two array reads; a read past the end is [undefined] and
    every comparison with it is false. *)
Definition lt_u (a b : option Qc) : bool :=
  match a, b with
  | Some x, Some y => Js.ltb x y
  | _, _ => false
  end.

Definition gt_u (a b : option Qc) : bool := lt_u b a.

(** [a.sort(cmp)] on an array of reads: the numbers are ordered by the
    comparator ([x] stays before [y] when [cmp x y <= 0]) and the
    [undefined] entries are moved to the end. *)
Fixpoint sort_insert (cmp : Qc -> Qc -> Qc) (x : Qc) (l : list Qc) : list Qc :=
  match l with
  | [] => [x]
  | y :: r =>
      if Js.gtb (cmp x y) 0 then y :: sort_insert cmp x r else x :: y :: r
  end.

Definition sort_numbers (cmp : Qc -> Qc -> Qc) (l : list Qc) : list Qc :=
  fold_right (sort_insert cmp) [] l.

Definition js_sort (cmp : Qc -> Qc -> Qc) (a : list (option Qc))
  : list (option Qc) :=
  map Some (sort_numbers cmp (filter_defined a))
  ++ filter (fun v => match v with None => true | Some _ => false end) a.

Definition is_support (lows : list Qc) (i : nat) : bool :=
  lt_u (nth_error lows i) (nth_error lows (i - 1)) &&
  lt_u (nth_error lows i) (nth_error lows (i - 2)) &&
  lt_u (nth_error lows i) (nth_error lows (i + 1)) &&
  lt_u (nth_error lows i) (nth_error lows (i + 2)).

Definition is_resistance (highs : list Qc) (i : nat) : bool :=
  gt_u (nth_error highs i) (nth_error highs (i - 1)) &&
  gt_u (nth_error highs i) (nth_error highs (i - 2)) &&
  gt_u (nth_error highs i) (nth_error highs (i + 1)) &&
  gt_u (nth_error highs i) (nth_error highs (i + 2)).

(** The loop [for (let i = 2; i < lows.length - 2; i++)]; the state is the
    pair of arrays [(support, resistance)]. *)
Definition pivot_loop (lows highs : list Qc)
  : list (option Qc) * list (option Qc) :=
  fold_left
    (fun (st : list (option Qc) * list (option Qc)) i =>
       let (support, resistance) := st in
       (if is_support lows i then support ++ [nth_error lows i] else support,
        if is_resistance highs i then resistance ++ [nth_error highs i]
        else resistance))
    (seq 2 (Z.to_nat (Z.of_nat (length lows) - 2 - 2))) ([], []).

Record Levels : Type := mkLevels {
  support : list (option Qc);
  resistance : list (option Qc)
}.

Definition findSupportResistance (lows highs : list Qc) : Levels :=
  let (support, resistance) := pivot_loop lows highs in
  let recentSupport := js_sort (fun a b => b - a) (Js.slice_from support (-3)) in
  let recentResistance :=
    js_sort (fun a b => a - b) (Js.slice_from resistance (-3)) in
  mkLevels
    (if (0 <? length recentSupport)%nat then recentSupport
     else [Js.at_index lows (Z.of_nat (length lows) - 1)])
    (if (0 <? length recentResistance)%nat then recentResistance
     else [Js.at_index highs (Z.of_nat (length highs) - 1)]).

(** ** Signal synthesis *)

(** The argument of [calculateSignal].  The price-scale fields are reads of
    the close series or defaults equal to such a read, and are [undefined]
    ([None]) when that series is empty; the caller always supplies numbers
    for [rsi], [macd] and [macdSignal]. *)
Record SignalData : Type := mkSignalData {
  currentPrice : option Qc;
  ma20 : option Qc;
  ma50 : option Qc;
  rsi : Qc;
  macdValue : Qc;
  macdSignal : Qc;
  bollingerUpper : option Qc;
  bollingerLower : option Qc
}.

(** The rationale sentences, one constructor per string literal of the
    source; the neutral RSI sentence carries the value it prints. *)
Inductive Reason : Type :=
  | NoReason
  | MaUptrend | MaDowntrend
  | RsiOversold | RsiOverbought | RsiNeutralZone (rsi : Qc)
  | MacdBullish | MacdBearish
  | BandBelowLower | BandAboveUpper | BandWithin.

Record SubSignal : Type := mkSubSignal {
  sub_signal : string;
  sub_reason : Reason
}.

Record Signals : Type := mkSignals {
  sig_maCrossover : SubSignal;
  sig_rsi : SubSignal;
  sig_macd : SubSignal;
  sig_bollinger : SubSignal
}.

Record SignalAnalysis : Type := mkSignalAnalysis {
  confidence : Z;
  verdict : string;
  signals : Signals
}.

(** The four additions to [buySignals], in source order. *)
Definition ma_contribution (data : SignalData) : Qc * SubSignal :=
  if gt_u (ma20 data) (ma50 data)
  then (Js.num 25, mkSubSignal "BUY"%string MaUptrend)
  else (0, mkSubSignal "SELL"%string MaDowntrend).

Definition rsi_contribution (data : SignalData) : Qc * SubSignal :=
  if Js.ltb (rsi data) (Js.num 30)
  then (Js.num 25, mkSubSignal "BUY"%string RsiOversold)
  else if Js.gtb (rsi data) (Js.num 70)
  then (0, mkSubSignal "SELL"%string RsiOverbought)
  else (Js.twelve_and_half, mkSubSignal "NEUTRAL"%string (RsiNeutralZone (rsi data))).

Definition macd_contribution (data : SignalData) : Qc * SubSignal :=
  if Js.gtb (macdValue data) (macdSignal data)
  then (Js.num 25, mkSubSignal "BUY"%string MacdBullish)
  else (0, mkSubSignal "SELL"%string MacdBearish).

Definition bollinger_contribution (data : SignalData) : Qc * SubSignal :=
  if lt_u (currentPrice data) (bollingerLower data)
  then (Js.num 25, mkSubSignal "BUY"%string BandBelowLower)
  else if gt_u (currentPrice data) (bollingerUpper data)
  then (0, mkSubSignal "SELL"%string BandAboveUpper)
  else (Js.twelve_and_half, mkSubSignal "NEUTRAL"%string BandWithin).

(** The value of the variable [buySignals] at the end of the function. *)
Definition buySignals (data : SignalData) : Qc :=
  let buySignals := 0 in
  let buySignals := buySignals + fst (ma_contribution data) in
  let buySignals := buySignals + fst (rsi_contribution data) in
  let buySignals := buySignals + fst (macd_contribution data) in
  let buySignals := buySignals + fst (bollinger_contribution data) in
  buySignals.

Definition calculateSignal (data : SignalData) : SignalAnalysis :=
  let b := buySignals data in
  mkSignalAnalysis
    (Js.round b)
    (if Js.gtb b (Js.num 50) then "BUY"%string
     else if Js.ltb b (Js.num 50) then "SELL"%string else "HOLD"%string)
    (mkSignals (snd (ma_contribution data)) (snd (rsi_contribution data))
               (snd (macd_contribution data))
               (snd (bollinger_contribution data))).

(** ** Market sentiment *)

Record Sentiment : Type := mkSentiment {
  sentiment : string;
  score : Qc
}.

Definition determineMarketSentiment (rsi macdValue priceVsMA20 : Qc)
  : Sentiment :=
  let score := Js.num 50 in
  let score :=
    if Js.ltb rsi (Js.num 30) then score - Js.num 15
    else if Js.ltb rsi (Js.num 40) then score - Js.num 10
    else if Js.gtb rsi (Js.num 70) then score + Js.num 15
    else if Js.gtb rsi (Js.num 60) then score + Js.num 10
    else score in
  let score :=
    if Js.gtb macdValue 0
    then score + Js.min (Js.num 15) (Js.abs macdValue * Js.num 10)
    else score - Js.min (Js.num 15) (Js.abs macdValue * Js.num 10) in
  let score := score + priceVsMA20 in
  let score := Js.max 0 (Js.min (Js.num 100) score) in
  let sentiment :=
    if Js.geb score (Js.num 80) then "Very Bullish"%string
    else if Js.geb score (Js.num 60) then "Bullish"%string
    else if Js.geb score (Js.num 40) then "Neutral"%string
    else if Js.geb score (Js.num 20) then "Bearish"%string
    else "Very Bearish"%string in
  mkSentiment sentiment score.

(** ** The evaluation performed by the request handler

    What follows the upstream fetch in [GET]: from the decoded chart result
    to the response body.  Of the response only the parts derived from the
    indicator pipeline are kept; the per-indicator chart series other than
    the candles, the volume, the day range and the descriptive metadata are
    left out. *)

(** [result.indicators.quote[0]]; a field is [None] when the property is
    missing, and an array entry is [None] when it is [null]. *)
Record Quote : Type := mkQuote {
  q_open : option (list (option Qc));
  q_high : option (list (option Qc));
  q_low : option (list (option Qc));
  q_close : option (list (option Qc));
  q_volume : option (list (option Qc))
}.

Record ChartResult : Type := mkChartResult {
  timestamp : option (list Z);
  quote : option Quote
}.

(** The two ways in which the evaluation reaches the [catch] block: the
    explicit [throw new Error('No quote data available')], and the
    [TypeError] of calling [filter] on a missing array. *)
Inductive Failure : Type :=
  | NoQuoteData
  | TypeError.

Inductive Response (A : Type) : Type :=
  | Ok (body : A)
  | Failed (error : Failure).

Arguments Ok {A} body.
Arguments Failed {A} error.

Record Candle : Type := mkCandle {
  c_time : Z;
  c_open : option Qc;
  c_high : option Qc;
  c_low : option Qc;
  c_close : option Qc
}.

Record Indicators : Type := mkIndicators {
  i_ma20 : option Qc;
  i_ma50 : option Qc;
  i_ma200 : option Qc;
  i_rsi : option Qc;
  i_macd : option Qc;
  i_macdSignal : option Qc;
  i_macdHistogram : option Qc;
  i_bollingerUpper : option Qc;
  i_bollingerMiddle : option Qc;
  i_bollingerLower : option Qc
}.

Record Bundle : Type := mkBundle {
  b_currentPrice : option Qc;
  b_indicators : Indicators;
  b_supportResistance : Levels;
  b_signal : SignalAnalysis;
  b_sentiment : Sentiment;
  b_candles : list Candle
}.

(** [a[i]] of a [(number | null)[]] at a possibly negative index, [null]
    and [undefined] merged. *)
Definition read (a : list (option Qc)) (i : Z) : option Qc :=
  match Js.at_index a i with
  | Some v => v
  | None => None
  end.

Section Evaluation.

Variable sqrt : Qc -> Qc.

(** The latest indicator values of a close series. *)
Definition latestIndicators (closes : list Qc) : Indicators :=
  let ma20 := calculateSMA closes 20 in
  let ma50 := calculateSMA closes 50 in
  let ma200 := calculateSMA closes 200 in
  let rsi := calculateRSI closes 14 in
  let m := calculateMACD closes in
  let bb := calculateBollingerBands sqrt closes 20 (Js.num 2) in
  let lastIndex := (Z.of_nat (length closes) - 1)%Z in
  mkIndicators (read ma20 lastIndex) (read ma50 lastIndex)
    (read ma200 lastIndex) (read rsi lastIndex)
    (read (macd m) lastIndex) (read (signal m) lastIndex)
    (read (histogram m) lastIndex)
    (read (upper bb) lastIndex) (read (middle bb) lastIndex)
    (read (lower bb) lastIndex).

(** The object passed to [calculateSignal], with the [||] defaults. *)
Definition signalInput (closes : list Qc) : SignalData :=
  let ind := latestIndicators closes in
  let currentPrice := Js.at_index closes (Z.of_nat (length closes) - 1) in
  mkSignalData currentPrice
    (Js.or_else Some (i_ma20 ind) currentPrice)
    (Js.or_else Some (i_ma50 ind) currentPrice)
    (Js.or_else id (i_rsi ind) (Js.num 50))
    (Js.or_else id (i_macd ind) 0)
    (Js.or_else id (i_macdSignal ind) 0)
    (Js.or_else Some (i_bollingerUpper ind) currentPrice)
    (Js.or_else Some (i_bollingerLower ind) currentPrice).

(** [priceVsMA20Percent].  The division is reached only when the latest
    MA20 is a non-zero number, hence only for a non-empty close series. *)
Definition priceVsMA20Percent (closes : list Qc) : Qc :=
  let currentPrice := nth (length closes - 1) closes 0 in
  Js.or_else
    (fun latestMa20 => (currentPrice - latestMa20) / latestMa20 * Js.num 100)
    (i_ma20 (latestIndicators closes)) 0.

(** [candleData].  The arrays read here are already free of [null], so the
    trailing [filter] of the source, which drops objects holding a [null],
    keeps every object; a read past the end yields [undefined] and is
    kept as well. *)
Definition candleData (timestamps : list Z) (opens highs lows closes : list Qc)
  : list Candle :=
  map (fun p : nat * Z =>
         let (i, ts) := p in
         mkCandle ts (nth_error opens i) (nth_error highs i)
                  (nth_error lows i) (nth_error closes i))
      (combine (seq 0 (length timestamps)) timestamps).

Definition evaluate (result : ChartResult) : Response Bundle :=
  match quote result with
  | None => Failed NoQuoteData
  | Some q =>
      match q_close q with
      | None => Failed NoQuoteData
      | Some rawClose =>
          let timestamps :=
            match timestamp result with Some t => t | None => [] end in
          let closes := filter_defined rawClose in
          match q_high q, q_low q, q_volume q, q_open q with
          | Some rawHigh, Some rawLow, Some rawVolume, Some rawOpen =>
              let highs := filter_defined rawHigh in
              let lows := filter_defined rawLow in
              let opens := filter_defined rawOpen in
              let ind := latestIndicators closes in
              Ok (mkBundle
                    (Js.at_index closes (Z.of_nat (length closes) - 1))
                    ind
                    (findSupportResistance lows highs)
                    (calculateSignal (signalInput closes))
                    (determineMarketSentiment
                       (Js.or_else id (i_rsi ind) (Js.num 50))
                       (Js.or_else id (i_macd ind) 0)
                       (priceVsMA20Percent closes))
                    (candleData timestamps opens highs lows closes))
          | _, _, _, _ => Failed TypeError
          end
      end
  end.

End Evaluation.

(** * The dashboard page

    The pure parts of the [Dashboard] component: the watchlist toggle, the
    refresh countdown and the two colour helpers.  Strings are sequences of
    ASCII characters; the case conversions act on the letters A-Z and a-z,
    which is all that the strings handled here contain. *)

Module Dashboard.

(** [watchlist.includes(symbol)]. *)
Definition includes_symbol (watchlist : list string) (symbol : string) : bool :=
  existsb (String.eqb symbol) watchlist.

(** [toggleWatchlist]: the new watchlist, which is stored in the component
    state and in local storage, and the title of the toast. *)
Definition toggleWatchlist (watchlist : list string) (symbol : string)
  : list string * string :=
  let newWatchlist :=
    if includes_symbol watchlist symbol
    then filter (fun s => negb (String.eqb s symbol)) watchlist
    else watchlist ++ [symbol] in
  (newWatchlist,
   if includes_symbol watchlist symbol
   then "Removed from Watchlist"%string else "Added to Watchlist"%string).

(** The state update run every second by the auto-refresh timer: the new
    countdown, and whether the stock data is fetched again. *)
Definition countdown_tick (prev : Z) : Z * bool :=
  if (prev <=? 1)%Z then (60%Z, true) else ((prev - 1)%Z, false).

(** [n] consecutive timer ticks: the final countdown and the ticks, in
    order, with the fetch flag of each. *)
Fixpoint countdown_run (n : nat) (prev : Z) : Z * list bool :=
  match n with
  | O => (prev, [])
  | S k =>
      let (next, fetched) := countdown_tick prev in
      let (final, log) := countdown_run k next in
      (final, fetched :: log)
  end.

Definition is_upper (c : Ascii.ascii) : bool :=
  (65 <=? Ascii.nat_of_ascii c)%nat && (Ascii.nat_of_ascii c <=? 90)%nat.

Definition is_lower (c : Ascii.ascii) : bool :=
  (97 <=? Ascii.nat_of_ascii c)%nat && (Ascii.nat_of_ascii c <=? 122)%nat.

Fixpoint toUpperCase (s : string) : string :=
  match s with
  | EmptyString => EmptyString
  | String c r =>
      String (if is_lower c then Ascii.ascii_of_nat (Ascii.nat_of_ascii c - 32)
              else c)
             (toUpperCase r)
  end.

Fixpoint toLowerCase (s : string) : string :=
  match s with
  | EmptyString => EmptyString
  | String c r =>
      String (if is_upper c then Ascii.ascii_of_nat (Ascii.nat_of_ascii c + 32)
              else c)
             (toLowerCase r)
  end.

(** [s.includes(sub)]. *)
Fixpoint includes (s sub : string) : bool :=
  if String.prefix sub s then true
  else match s with
       | EmptyString => false
       | String _ r => includes r sub
       end.

Definition getSignalColor (signal : string) : string :=
  let u := toUpperCase signal in
  if String.eqb u "BUY" then "text-green-500"%string
  else if String.eqb u "SELL" then "text-red-500"%string
  else "text-yellow-500"%string.

Definition getSentimentColor (sentiment : string) : string :=
  let s := toLowerCase sentiment in
  if includes s "bullish" then "text-green-500"%string
  else if includes s "bearish" then "text-red-500"%string
  else "text-yellow-500"%string.

End Dashboard.

(** * Reference definitions

    The quantities named by the specification, written from its wording;
    the theorems below compare them with the functions above. *)

Module Spec.

(** Close-to-close change ending at index [j]. *)
Definition delta (closes : list Qc) (j : nat) : Qc :=
  nth j closes 0 - nth (j - 1) closes 0.

(** Zero-filled gain and loss. *)
Definition gain (closes : list Qc) (j : nat) : Qc :=
  if Js.gtb (delta closes j) 0 then delta closes j else 0.

Definition loss (closes : list Qc) (j : nat) : Qc :=
  if Js.ltb (delta closes j) 0 then Js.abs (delta closes j) else 0.

(** The trailing [period] changes ending at [i] are those ending at
    [i - period + 1], ..., [i]. *)
Definition trailing (period i : nat) : list nat := seq (i + 1 - period) period.

Definition avgGain (closes : list Qc) (period i : nat) : Qc :=
  Js.sum (map (gain closes) (trailing period i)) / Js.num (Z.of_nat period).

Definition avgLoss (closes : list Qc) (period i : nat) : Qc :=
  Js.sum (map (loss closes) (trailing period i)) / Js.num (Z.of_nat period).

(** Sentiment adjustments. *)
Definition rsiAdj (rsi : Qc) : Qc :=
  if Js.ltb rsi (Js.num 30) then - Js.num 15
  else if Js.ltb rsi (Js.num 40) then - Js.num 10
  else if Js.gtb rsi (Js.num 70) then Js.num 15
  else if Js.gtb rsi (Js.num 60) then Js.num 10
  else 0.

Definition macdAdj (macd : Qc) : Qc :=
  if Js.gtb macd 0 then Js.min (Js.num 15) (Js.abs macd * Js.num 10)
  else - Js.min (Js.num 15) (Js.abs macd * Js.num 10).

Definition clamp (lo hi x : Qc) : Qc :=
  if Js.ltb x lo then lo else if Js.gtb x hi then hi else x.

Definition label (score : Qc) : string :=
  if Js.geb score (Js.num 80) then "Very Bullish"%string
  else if Js.geb score (Js.num 60) then "Bullish"%string
  else if Js.geb score (Js.num 40) then "Neutral"%string
  else if Js.geb score (Js.num 20) then "Bearish"%string
  else "Very Bearish"%string.

(** Local extrema over a five-point window. *)
Definition local_min (lows : list Qc) (i : nat) : bool :=
  Js.ltb (nth i lows 0) (nth (i - 1) lows 0) &&
  Js.ltb (nth i lows 0) (nth (i - 2) lows 0) &&
  Js.ltb (nth i lows 0) (nth (i + 1) lows 0) &&
  Js.ltb (nth i lows 0) (nth (i + 2) lows 0).

Definition local_max (highs : list Qc) (i : nat) : bool :=
  Js.gtb (nth i highs 0) (nth (i - 1) highs 0) &&
  Js.gtb (nth i highs 0) (nth (i - 2) highs 0) &&
  Js.gtb (nth i highs 0) (nth (i + 1) highs 0) &&
  Js.gtb (nth i highs 0) (nth (i + 2) highs 0).

(** The indices [2 .. n - 3]. *)
Definition scanned (n : nat) : list nat := seq 2 (n - 4).

Definition support_candidates (lows : list Qc) : list Qc :=
  map (fun i => nth i lows 0) (filter (local_min lows) (scanned (length lows))).

Definition resistance_candidates (highs : list Qc) : list Qc :=
  map (fun i => nth i highs 0)
      (filter (local_max highs) (scanned (length highs))).

(** The most recent [k] entries of a list in chronological order. *)
Definition most_recent {A : Type} (k : nat) (l : list A) : list A :=
  skipn (length l - k) l.

Definition descending (l : list Qc) : Prop := Sorted (fun a b => b <= a) l.

Definition ascending (l : list Qc) : Prop := Sorted (fun a b => a <= b) l.

End Spec.

(** * Concrete inputs *)

Module Example.

(** Thirty-four equal closes: enough for nine defined MACD values. *)
Definition flat_closes : list Qc := repeat (Js.num 1) 34.

(** Fifteen strictly falling closes, 15 down to 1. *)
Definition falling_closes : list Qc :=
  map (fun n => Js.num (Z.of_nat n)) (rev (seq 1 15)).

(** Eighteen closes at zero followed by -1 and 1: the last twenty sum to
    zero while the last close does not vanish. *)
Definition zero_mean_closes : list Qc :=
  repeat 0 18 ++ [Js.num (-1); Js.num 1].

(** A chart result whose arrays differ in length, both as received and
    after the nulls are removed. *)
Definition mismatched_chart : ChartResult :=
  mkChartResult
    (Some [100; 200; 300]%Z)
    (Some (mkQuote
             (Some [Some (Js.num 10); Some (Js.num 11); Some (Js.num 12)])
             (Some [Some (Js.num 11)])
             (Some [Some (Js.num 9); Some (Js.num 8)])
             (Some [Some (Js.num 10); None; Some (Js.num 12)])
             (Some []))).

End Example.



(** The four sub-signal verdicts of an analysis, and how many of them
    carry a given verdict. *)
Definition sub_signals (s : Signals) : list string :=
  [sub_signal (sig_maCrossover s); sub_signal (sig_rsi s);
   sub_signal (sig_macd s); sub_signal (sig_bollinger s)].

Definition count_verdict (v : string) (s : Signals) : nat :=
  length (filter (String.eqb v) (sub_signals s)).

(** A slot as a plain fraction, for stating concrete values. *)
Definition fraction (v : option Qc) : option Q := option_map this v.

(** * Properties *)

(** ** Loops that push one element per iteration *)

Section ForPush.

Context {A : Type}.
Variable body : list A -> nat -> A.

Lemma for_push_S (n : nat) :
  Js.for_push (S n) body
  = Js.for_push n body ++ [body (Js.for_push n body) n].
Proof.
  unfold Js.for_push. rewrite seq_S, fold_left_app. reflexivity.
Qed.

Lemma for_push_length (n : nat) : length (Js.for_push n body) = n.
Proof.
  induction n as [|n IH]; [reflexivity|].
  rewrite for_push_S, length_app, IH. simpl. lia.
Qed.

Lemma for_push_nth_error (n i : nat) :
  (i < n)%nat ->
  nth_error (Js.for_push n body) i = Some (body (Js.for_push i body) i).
Proof.
  induction n as [|n IH]; intros Hi; [lia|].
  rewrite for_push_S.
  destruct (Nat.eq_dec i n) as [->|Hne].
  - rewrite nth_error_app2 by (rewrite for_push_length; lia).
    rewrite for_push_length, Nat.sub_diag. reflexivity.
  - rewrite nth_error_app1 by (rewrite for_push_length; lia).
    apply IH. lia.
Qed.

Lemma for_push_Forall (P : A -> Prop) (n : nat) :
  (forall result i, (i < n)%nat -> P (body result i)) ->
  Forall P (Js.for_push n body).
Proof.
  induction n as [|n IH]; intros H.
  - constructor.
  - rewrite for_push_S. apply Forall_app. split.
    + apply IH. intros r i Hi. apply H. lia.
    + constructor; [apply H; lia | constructor].
Qed.

End ForPush.

Lemma slot_absent (a : list (option Qc)) (i : nat) :
  Forall (eq None) a -> slot a i = None.
Proof.
  intros H. unfold slot. destruct (nth_error a i) as [v|] eqn:E; [|reflexivity].
  apply nth_error_In in E. rewrite Forall_forall in H. symmetry. now apply H.
Qed.

(** ** The signal loop *)

Lemma signal_fold_length (m e : list (option Qc)) (idx : list nat) st :
  length (fst (fold_left (signal_step m e) idx st))
  = (length (fst st) + length idx)%nat.
Proof.
  revert st. induction idx as [|i idx IH]; intros [s k]; simpl; [lia|].
  rewrite IH. unfold signal_step.
  destruct (slot m i); simpl; rewrite length_app; simpl; lia.
Qed.

Lemma signal_loop_length (m e : list (option Qc)) :
  length (fst (signal_loop m e)) = length m.
Proof.
  unfold signal_loop. rewrite signal_fold_length, length_seq. reflexivity.
Qed.

Lemma signal_fold_absent (m e : list (option Qc)) (idx : list nat) st :
  Forall (eq None) m -> Forall (eq None) (fst st) ->
  Forall (eq None) (fst (fold_left (signal_step m e) idx st)).
Proof.
  intros Hm. revert st. induction idx as [|i idx IH]; intros [s k] Hs; simpl.
  - exact Hs.
  - apply IH. unfold signal_step. rewrite (slot_absent m i Hm). simpl.
    apply Forall_app. split; [exact Hs | repeat constructor].
Qed.

(** ** Output lengths *)

Lemma calculateSMA_length (data : list Qc) (period : nat) :
  length (calculateSMA data period) = length data.
Proof. apply for_push_length. Qed.

Lemma calculateEMA_length (data : list Qc) (period : nat) :
  length (calculateEMA data period) = length data.
Proof. apply for_push_length. Qed.

Lemma calculateRSI_length (closes : list Qc) (period : nat) :
  length (calculateRSI closes period) = length closes.
Proof. apply for_push_length. Qed.

Lemma macd_line_length (closes : list Qc) :
  length (macd_line closes) = length closes.
Proof. apply for_push_length. Qed.

(** ** Insufficient history *)

Lemma calculateSMA_short (data : list Qc) (period : nat) :
  (length data < period)%nat -> Forall (eq None) (calculateSMA data period).
Proof.
  intros H. apply for_push_Forall. intros _ i Hi.
  destruct (Z.ltb_spec (Z.of_nat i) (Z.of_nat period - 1)); [reflexivity|lia].
Qed.

Lemma calculateEMA_short (data : list Qc) (period : nat) :
  (length data < period)%nat -> Forall (eq None) (calculateEMA data period).
Proof.
  intros H. apply for_push_Forall. intros r i Hi.
  destruct (Z.ltb_spec (Z.of_nat i) (Z.of_nat period - 1)); [reflexivity|lia].
Qed.

Lemma calculateRSI_short (closes : list Qc) (period : nat) :
  (length closes < period)%nat -> Forall (eq None) (calculateRSI closes period).
Proof.
  intros H. apply for_push_Forall. intros _ i Hi.
  destruct (Nat.ltb_spec i period); [reflexivity|lia].
Qed.

Lemma band_short sqrt (closes : list Qc) mid (period : nat) k side :
  (length closes < period)%nat ->
  Forall (eq None) (band sqrt closes mid period k side).
Proof.
  intros H. apply for_push_Forall. intros _ i Hi.
  destruct (Z.ltb_spec (Z.of_nat i) (Z.of_nat period - 1)); [reflexivity|lia].
Qed.

Lemma macd_line_short (closes : list Qc) :
  (length closes < 26)%nat -> Forall (eq None) (macd_line closes).
Proof.
  intros H. apply for_push_Forall. intros _ i _.
  rewrite (slot_absent (calculateEMA closes 26) i (calculateEMA_short _ _ H)).
  destruct (slot (calculateEMA closes 12) i); reflexivity.
Qed.

(** C8.  Index alignment: for every close series, period and band width,
    the outputs of SMA, EMA, RSI, the three MACD series and the three
    Bollinger series have exactly the length of the input; an entry without
    enough history is stored as an absent slot, not left out. *)
Theorem C8_output_length_equals_input_length :
  forall (sqrt : Qc -> Qc) (closes : list Qc) (period : nat) (stdDev : Qc),
    let n := length closes in
    length (calculateSMA closes period) = n /\
    length (calculateEMA closes period) = n /\
    length (calculateRSI closes period) = n /\
    (length (macd (calculateMACD closes)) = n /\
     length (signal (calculateMACD closes)) = n /\
     length (histogram (calculateMACD closes)) = n) /\
    (length (upper (calculateBollingerBands sqrt closes period stdDev)) = n /\
     length (middle (calculateBollingerBands sqrt closes period stdDev)) = n /\
     length (lower (calculateBollingerBands sqrt closes period stdDev)) = n).
Proof.
  intros sqrt closes period stdDev n. subst n.
  split; [apply calculateSMA_length|].
  split; [apply calculateEMA_length|].
  split; [apply calculateRSI_length|].
  split.
  - cbn [calculateMACD macd signal histogram].
    rewrite signal_loop_length, for_push_length, macd_line_length. auto.
  - cbn [calculateBollingerBands upper middle lower].
    unfold band. rewrite !for_push_length, calculateSMA_length. auto.
Qed.

(** C6.  Insufficient data: when the series is shorter than the period,
    every slot of the SMA, EMA, RSI and Bollinger outputs for that period is
    absent; when it is shorter than the slow MACD lookback of 26, every slot
    of the MACD line, signal line and histogram is absent.  The functions
    are total, so no error is raised. *)
Theorem C6_short_series_all_absent :
  forall (sqrt : Qc -> Qc) (data : list Qc) (period : nat) (stdDev : Qc),
    (length data < period)%nat ->
    Forall (eq None) (calculateSMA data period) /\
    Forall (eq None) (calculateEMA data period) /\
    Forall (eq None) (calculateRSI data period) /\
    (Forall (eq None) (upper (calculateBollingerBands sqrt data period stdDev)) /\
     Forall (eq None) (middle (calculateBollingerBands sqrt data period stdDev)) /\
     Forall (eq None) (lower (calculateBollingerBands sqrt data period stdDev))) /\
    ((length data < 26)%nat ->
     Forall (eq None) (macd (calculateMACD data)) /\
     Forall (eq None) (signal (calculateMACD data)) /\
     Forall (eq None) (histogram (calculateMACD data))).
Proof.
  intros sqrt data period stdDev H.
  split; [now apply calculateSMA_short|].
  split; [now apply calculateEMA_short|].
  split; [now apply calculateRSI_short|].
  split.
  - cbn [calculateBollingerBands upper middle lower].
    repeat split; try now apply band_short. now apply calculateSMA_short.
  - intros H26. cbn [calculateMACD macd signal histogram].
    pose proof (macd_line_short data H26) as Hm.
    split; [exact Hm|]. split.
    + unfold signal_loop. apply signal_fold_absent; [exact Hm | constructor].
    + apply for_push_Forall. intros _ i _. now rewrite (slot_absent _ i Hm).
Qed.

Lemma C6_short_series_all_absent_witness :
  let data := [Js.num 10; Js.num 11; Js.num 12] in
  Forall (eq None) (calculateSMA data 5) /\
  Forall (eq None) (calculateEMA data 5) /\
  Forall (eq None) (calculateRSI data 5) /\
  Forall (eq None) (macd (calculateMACD data)).
Proof.
  intros data.
  destruct (C6_short_series_all_absent (fun x => x) data 5 (Js.num 2))
    as (Hs & He & Hr & _ & Hm).
  - simpl. lia.
  - destruct Hm as (Hm & _).
    + simpl. lia.
    + exact (conj Hs (conj He (conj Hr Hm))).
Defined.

(** ** Signal synthesis *)

(** C1.  For every input of the signal synthesizer the confidence is the
    rounded sum of the four contributions, it is an integer between 0 and
    100, and the verdict is BUY when the confidence exceeds 50, SELL when it
    is below 50 and HOLD when it equals 50: branching on the unrounded sum,
    as the source does, agrees with branching on the rounded one. *)
Theorem C1_confidence_and_verdict :
  forall data : SignalData,
    let r := calculateSignal data in
    let contributions :=
      fst (ma_contribution data) + fst (rsi_contribution data)
      + fst (macd_contribution data) + fst (bollinger_contribution data) in
    confidence r = Js.round contributions /\
    (0 <= confidence r <= 100)%Z /\
    verdict r =
      (if (50 <? confidence r)%Z then "BUY"
       else if (confidence r <? 50)%Z then "SELL" else "HOLD")%string.
Proof.
  intros data.
  unfold calculateSignal, buySignals, ma_contribution, rsi_contribution,
    macd_contribution, bollinger_contribution.
  cbn [confidence verdict].
  destruct (gt_u (ma20 data) (ma50 data));
  destruct (Js.ltb (rsi data) (Js.num 30));
  destruct (Js.gtb (rsi data) (Js.num 70));
  destruct (Js.gtb (macdValue data) (macdSignal data));
  destruct (lt_u (currentPrice data) (bollingerLower data));
  destruct (gt_u (currentPrice data) (bollingerUpper data));
  cbn [fst snd]; vm_compute; (split; [reflexivity|]);
  (split; [split; discriminate | reflexivity]).
Qed.

(** ** Comparisons on numbers *)

Lemma ltb_lt (a b : Qc) : Js.ltb a b = true <-> a < b.
Proof.
  unfold Js.ltb. rewrite Qclt_alt.
  destruct (a ?= b); split; intros H; try reflexivity; discriminate.
Qed.

Lemma ltb_ge (a b : Qc) : Js.ltb a b = false <-> b <= a.
Proof.
  split; intros H.
  - apply Qcnot_lt_le. intros L. apply ltb_lt in L. congruence.
  - destruct (Js.ltb a b) eqn:E; [|reflexivity].
    apply ltb_lt in E. exfalso. exact (Qcle_not_lt _ _ H E).
Qed.

Lemma eqb_eq (a b : Qc) : Js.eqb a b = true <-> a = b.
Proof.
  unfold Js.eqb. rewrite Qceq_alt.
  destruct (a ?= b); split; intros H; try reflexivity; discriminate.
Qed.

Lemma ltb_case (a b : Qc) : ltb_cases a b (Js.ltb a b).
Proof.
  destruct (Js.ltb a b) eqn:E; constructor.
  - now apply ltb_lt.
  - now apply ltb_ge.
Qed.

(** ** Sentiment *)

Lemma clamp_max_min (x : Qc) :
  Js.max 0 (Js.min (Js.num 100) x) = Spec.clamp 0 (Js.num 100) x.
Proof.
  assert (H100 : 0 < Js.num 100) by reflexivity.
  unfold Js.max, Js.min, Spec.clamp, Js.gtb.
  destruct (ltb_case x (Js.num 100)) as [Hx|Hx].
  - destruct (ltb_case 0 x) as [H0|H0].
    + destruct (ltb_case x 0) as [H1|H1].
      * exfalso. exact (Qclt_not_le _ _ H0 (Qclt_le_weak _ _ H1)).
      * destruct (ltb_case (Js.num 100) x) as [H2|H2]; [|reflexivity].
        exfalso. exact (Qclt_not_le _ _ Hx (Qclt_le_weak _ _ H2)).
    + destruct (ltb_case x 0) as [H1|H1]; [reflexivity|].
      destruct (ltb_case (Js.num 100) x) as [H2|H2].
      * exfalso. exact (Qclt_not_le _ _ Hx (Qclt_le_weak _ _ H2)).
      * now apply Qcle_antisym.
  - destruct (ltb_case 0 (Js.num 100)) as [_|H0];
      [|exfalso; exact (Qclt_not_le _ _ H100 H0)].
    destruct (ltb_case x 0) as [H1|H1].
    + exfalso. apply (Qclt_not_le _ _ H100).
      apply Qcle_trans with x; [exact Hx | now apply Qclt_le_weak].
    + destruct (ltb_case (Js.num 100) x) as [H2|H2]; [reflexivity|].
      now apply Qcle_antisym.
Qed.

(** C5.  The sentiment score is the clamp to [0,100] of
    [50 + rsiAdj + macdAdj + priceVsMA20], with the RSI adjustment taken
    from the else-if chain, the MACD adjustment capped at 15 in magnitude,
    the price deviation added without a cap of its own, and the label read
    off the clamped score by the thresholds 80, 60, 40, 20. *)
Theorem C5_sentiment_score_and_label :
  forall rsi macd priceVsMA20 : Qc,
    let s :=
      Spec.clamp 0 (Js.num 100)
        (Js.num 50 + Spec.rsiAdj rsi + Spec.macdAdj macd + priceVsMA20) in
    determineMarketSentiment rsi macd priceVsMA20
    = mkSentiment (Spec.label s) s.
Proof.
  intros rsi macd p. cbv zeta.
  unfold determineMarketSentiment. rewrite clamp_max_min.
  match goal with
  | |- mkSentiment _ (Spec.clamp _ _ ?a) = mkSentiment _ (Spec.clamp _ _ ?b) =>
      assert (E : a = b)
  end.
  { unfold Spec.rsiAdj, Spec.macdAdj.
    destruct (Js.ltb rsi (Js.num 30)); [|destruct (Js.ltb rsi (Js.num 40));
      [|destruct (Js.gtb rsi (Js.num 70)); [|destruct (Js.gtb rsi (Js.num 60))]]];
    destruct (Js.gtb macd 0); ring. }
  rewrite E. reflexivity.
Qed.

(** ** RSI *)

Lemma abs_zero_when_not_negative (d : Qc) :
  Js.gtb d 0 = false -> Js.ltb d 0 = false -> Js.abs d = 0.
Proof.
  unfold Js.gtb, Js.abs. intros H1 H2. rewrite H2.
  apply ltb_ge in H1, H2. now apply Qcle_antisym.
Qed.

Lemma rsi_fold_sums (closes : list Qc) (idx : list nat) (g l : Qc) :
  Forall (fun j => 0 < j)%nat idx ->
  fold_left
    (fun (acc : Qc * Qc) j =>
       let (avgGain, avgLoss) := acc in
       if (0 <? j)%nat then
         let change := nth j closes 0 - nth (j - 1) closes 0 in
         if Js.gtb change 0 then (avgGain + change, avgLoss)
         else (avgGain, avgLoss + Js.abs change)
       else acc)
    idx (g, l)
  = (fold_left Qcplus (map (Spec.gain closes) idx) g,
     fold_left Qcplus (map (Spec.loss closes) idx) l).
Proof.
  intros H. revert g l. induction H as [|j idx Hj _ IH]; intros g l.
  - reflexivity.
  - cbn [fold_left map]. apply Nat.ltb_lt in Hj. rewrite Hj.
    unfold Spec.gain, Spec.loss. fold (Spec.delta closes j).
    destruct (Js.gtb (Spec.delta closes j) 0) eqn:G.
    + assert (L : Js.ltb (Spec.delta closes j) 0 = false).
      { apply ltb_ge. apply Qclt_le_weak. now apply ltb_lt. }
      rewrite L, IH. f_equal. f_equal. ring.
    + rewrite IH. f_equal; f_equal; [ring|].
      destruct (Js.ltb (Spec.delta closes j) 0) eqn:L; [reflexivity|].
      now rewrite (abs_zero_when_not_negative _ G L).
Qed.

Lemma rsi_accumulate_sums (closes : list Qc) (period i : nat) :
  (period <= i)%nat ->
  rsi_accumulate closes period i
  = (Js.sum (map (Spec.gain closes) (Spec.trailing period i)),
     Js.sum (map (Spec.loss closes) (Spec.trailing period i))).
Proof.
  intros H. unfold rsi_accumulate, Spec.trailing, Js.sum.
  replace (i - period + 1)%nat with (i + 1 - period)%nat by lia.
  apply rsi_fold_sums. apply Forall_forall. intros j Hj.
  apply in_seq in Hj. lia.
Qed.

(** C4.  For a positive period and an index [i] of the series: below the
    period the RSI slot is absent; from the period on it holds a number,
    which is 100 when the average loss over the trailing [period] changes
    is zero and [100 - 100 / (1 + avgGain / avgLoss)] otherwise, the
    averages being the sums of the zero-filled gains and losses of that
    window divided by the period and depending on the window alone. *)
Theorem C4_rsi_simple_window :
  forall (closes : list Qc) (period i : nat),
    (1 <= period)%nat -> (i < length closes)%nat ->
    ((i < period)%nat -> nth_error (calculateRSI closes period) i = Some None) /\
    ((period <= i)%nat ->
     exists v : Qc,
       nth_error (calculateRSI closes period) i = Some (Some v) /\
       (Spec.avgLoss closes period i = 0 -> v = Js.num 100) /\
       (Spec.avgLoss closes period i <> 0 ->
        v = Js.num 100
            - Js.num 100
              / (1 + Spec.avgGain closes period i / Spec.avgLoss closes period i))).
Proof.
  intros closes period i Hp Hi.
  unfold calculateRSI. rewrite for_push_nth_error by exact Hi.
  split; intros H.
  - apply Nat.ltb_lt in H. now rewrite H.
  - apply Nat.ltb_ge in H. rewrite H.
    apply Nat.ltb_ge in H. rewrite (rsi_accumulate_sums closes period i H).
    fold (Spec.avgGain closes period i). fold (Spec.avgLoss closes period i).
    destruct (Js.eqb (Spec.avgLoss closes period i) 0) eqn:E.
    + exists (Js.num 100). apply eqb_eq in E.
      split; [reflexivity|]. split; [reflexivity|]. intros N. contradiction.
    + eexists. split; [reflexivity|]. split; [|reflexivity].
      intros Z0. apply eqb_eq in Z0. congruence.
Qed.

Lemma C4_rsi_simple_window_witness :
  nth_error (calculateRSI [Js.num 3; Js.num 5; Js.num 4] 2) 1 = Some None /\
  exists v : Qc,
    nth_error (calculateRSI [Js.num 3; Js.num 5; Js.num 4] 2) 2 = Some (Some v).
Proof.
  split.
  - apply (C4_rsi_simple_window [Js.num 3; Js.num 5; Js.num 4] 2 1);
      simpl; lia.
  - destruct (C4_rsi_simple_window [Js.num 3; Js.num 5; Js.num 4] 2 2)
      as [_ H]; [simpl; lia | simpl; lia |].
    destruct H as (v & Hv & _); [lia|]. exists v. exact Hv.
Defined.

(** ** Sorting by a comparator *)

Section SortBy.

Variable cmp : Qc -> Qc -> Qc.
Variable R : Qc -> Qc -> Prop.
Hypothesis after : forall x y, Js.gtb (cmp x y) 0 = true -> R y x.
Hypothesis before : forall x y, Js.gtb (cmp x y) 0 = false -> R x y.

Lemma sort_insert_perm (x : Qc) (l : list Qc) :
  Permutation (x :: l) (sort_insert cmp x l).
Proof.
  induction l as [|y r IH]; simpl; [reflexivity|].
  destruct (Js.gtb (cmp x y) 0); [|reflexivity].
  rewrite perm_swap. now constructor.
Qed.

Lemma sort_numbers_perm (l : list Qc) : Permutation l (sort_numbers cmp l).
Proof.
  induction l as [|x l IH]; simpl; [constructor|].
  rewrite <- sort_insert_perm. now constructor.
Qed.

Lemma sort_insert_hd (x y : Qc) (l : list Qc) :
  HdRel R y l -> R y x -> HdRel R y (sort_insert cmp x l).
Proof.
  intros H Hx. destruct l as [|z r]; simpl.
  - now constructor.
  - inversion H; subst. destruct (Js.gtb (cmp x z) 0); now constructor.
Qed.

Lemma sort_insert_sorted (x : Qc) (l : list Qc) :
  Sorted R l -> Sorted R (sort_insert cmp x l).
Proof.
  induction 1 as [|y r Hs IH Hh]; simpl.
  - repeat constructor.
  - destruct (Js.gtb (cmp x y) 0) eqn:E.
    + constructor; [exact IH|]. apply sort_insert_hd; [exact Hh|]. now apply after.
    + constructor; [now constructor|]. constructor. now apply before.
Qed.

Lemma sort_numbers_sorted (l : list Qc) : Sorted R (sort_numbers cmp l).
Proof.
  induction l as [|x l IH]; simpl; [constructor|].
  now apply sort_insert_sorted.
Qed.

End SortBy.

Lemma sub_pos_lt (x y : Qc) : Js.gtb (y - x) 0 = true -> x < y.
Proof.
  unfold Js.gtb. intros H. apply ltb_lt in H. now apply Qclt_minus_iff.
Qed.

Lemma sub_nonpos_le (x y : Qc) : Js.gtb (y - x) 0 = false -> y <= x.
Proof.
  unfold Js.gtb. intros H. apply ltb_ge in H.
  apply Qcnot_lt_le. intros L. apply Qclt_minus_iff in L.
  exact (Qclt_not_le _ _ L H).
Qed.

Lemma sort_descending (l : list Qc) :
  Spec.descending (sort_numbers (fun a b => b - a) l).
Proof.
  apply sort_numbers_sorted.
  - intros x y H. apply Qclt_le_weak. now apply sub_pos_lt.
  - intros x y H. now apply sub_nonpos_le.
Qed.

Lemma sort_ascending (l : list Qc) :
  Spec.ascending (sort_numbers (fun a b => a - b) l).
Proof.
  apply sort_numbers_sorted.
  - intros x y H. apply Qclt_le_weak. now apply sub_pos_lt.
  - intros x y H. now apply sub_nonpos_le.
Qed.

Lemma filter_defined_map_Some (l : list Qc) : filter_defined (map Some l) = l.
Proof. induction l as [|x l IH]; simpl; [reflexivity | now rewrite IH]. Qed.

Lemma js_sort_defined (cmp : Qc -> Qc -> Qc) (l : list Qc) :
  js_sort cmp (map Some l) = map Some (sort_numbers cmp l).
Proof.
  unfold js_sort. rewrite filter_defined_map_Some.
  replace (filter _ (map Some l)) with (@nil (option Qc)).
  - apply app_nil_r.
  - induction l as [|x l IH]; simpl; auto.
Qed.

Lemma slice_from_most_recent {A : Type} (l : list A) :
  Js.slice_from l (-3) = Spec.most_recent 3 l.
Proof.
  unfold Js.slice_from, Js.slice, Spec.most_recent.
  change (-3 <? 0)%Z with true. cbv iota.
  destruct (Z.ltb_spec (Z.of_nat (length l)) 0) as [H|_]; [lia|].
  rewrite Z.min_id.
  replace (Z.to_nat (Z.max (Z.of_nat (length l) + -3) 0))
    with (length l - 3)%nat by lia.
  apply firstn_all2. rewrite length_skipn. lia.
Qed.

Lemma most_recent_map {A B : Type} (f : A -> B) (k : nat) (l : list A) :
  Spec.most_recent k (map f l) = map f (Spec.most_recent k l).
Proof.
  unfold Spec.most_recent. now rewrite length_map, skipn_map.
Qed.

Lemma most_recent_length {A : Type} (k : nat) (l : list A) :
  length (Spec.most_recent k l) = Nat.min k (length l).
Proof. unfold Spec.most_recent. rewrite length_skipn. lia. Qed.

(** ** Level detection *)

Lemma pivot_fold (lows highs : list Qc) (idx : list nat) s r :
  fold_left
    (fun (st : list (option Qc) * list (option Qc)) i =>
       let (support, resistance) := st in
       (if is_support lows i then support ++ [nth_error lows i] else support,
        if is_resistance highs i then resistance ++ [nth_error highs i]
        else resistance))
    idx (s, r)
  = (s ++ map (nth_error lows) (filter (is_support lows) idx),
     r ++ map (nth_error highs) (filter (is_resistance highs) idx)).
Proof.
  revert s r. induction idx as [|i idx IH]; intros s r; simpl.
  - now rewrite !app_nil_r.
  - rewrite IH.
    destruct (is_support lows i), (is_resistance highs i); simpl;
      now rewrite <- ?app_assoc.
Qed.

Lemma lt_u_defined (a b : option Qc) :
  lt_u a b = true -> exists x y, a = Some x /\ b = Some y.
Proof. destruct a, b; simpl; try discriminate. eauto. Qed.

Lemma is_support_defined (lows : list Qc) (i : nat) :
  is_support lows i = true -> nth_error lows i = Some (nth i lows 0).
Proof.
  unfold is_support. intros H. apply andb_prop in H as [H _].
  apply andb_prop in H as [H _]. apply andb_prop in H as [H _].
  apply lt_u_defined in H as (x & y & Hx & _).
  rewrite Hx. f_equal. symmetry. now apply nth_error_nth.
Qed.

Lemma is_resistance_defined (highs : list Qc) (i : nat) :
  is_resistance highs i = true -> nth_error highs i = Some (nth i highs 0).
Proof.
  unfold is_resistance, gt_u. intros H. apply andb_prop in H as [H _].
  apply andb_prop in H as [H _]. apply andb_prop in H as [H _].
  apply lt_u_defined in H as (x & y & _ & Hy).
  rewrite Hy. f_equal. symmetry. now apply nth_error_nth.
Qed.

Lemma kept_reads_defined (a : list Qc) (p : nat -> bool) (idx : list nat) :
  (forall i, p i = true -> nth_error a i = Some (nth i a 0)) ->
  map (nth_error a) (filter p idx)
  = map Some (map (fun i => nth i a 0) (filter p idx)).
Proof.
  intros H. induction idx as [|i idx IH]; simpl; [reflexivity|].
  destruct (p i) eqn:E; simpl; [|exact IH]. now rewrite IH, (H i E).
Qed.

(** The arrays built by the loop, as lists of numbers. *)
Lemma pivot_loop_candidates (lows highs : list Qc) :
  let idx := seq 2 (length lows - 4) in
  pivot_loop lows highs
  = (map Some (map (fun i => nth i lows 0) (filter (is_support lows) idx)),
     map Some (map (fun i => nth i highs 0) (filter (is_resistance highs) idx))).
Proof.
  intros idx. unfold pivot_loop. rewrite pivot_fold. simpl app.
  replace (Z.to_nat (Z.of_nat (length lows) - 2 - 2)) with (length lows - 4)%nat
    by lia.
  fold idx. f_equal; apply kept_reads_defined.
  - apply is_support_defined.
  - apply is_resistance_defined.
Qed.

Lemma read_in_range (a : list Qc) (i : nat) :
  (i < length a)%nat -> nth_error a i = Some (nth i a 0).
Proof. intros H. now apply nth_error_nth'. Qed.

Lemma is_support_local_min (lows : list Qc) (i : nat) :
  (i + 2 < length lows)%nat -> is_support lows i = Spec.local_min lows i.
Proof.
  intros H. unfold is_support, Spec.local_min.
  rewrite !read_in_range by lia. reflexivity.
Qed.

Lemma is_resistance_local_max (highs : list Qc) (i : nat) :
  (i + 2 < length highs)%nat -> is_resistance highs i = Spec.local_max highs i.
Proof.
  intros H. unfold is_resistance, Spec.local_max.
  rewrite !read_in_range by lia. reflexivity.
Qed.

Lemma pivot_loop_spec (lows highs : list Qc) :
  length lows = length highs ->
  pivot_loop lows highs
  = (map Some (Spec.support_candidates lows),
     map Some (Spec.resistance_candidates highs)).
Proof.
  intros E. rewrite pivot_loop_candidates. cbv zeta.
  unfold Spec.support_candidates, Spec.resistance_candidates, Spec.scanned.
  rewrite <- E. f_equal; f_equal; f_equal; apply filter_ext_in; intros i Hi;
    apply in_seq in Hi.
  - apply is_support_local_min. lia.
  - apply is_resistance_local_max. lia.
Qed.

(** The list returned for one kind of level, given the numbers pushed by
    the loop. *)
Lemma returned_levels (cmp : Qc -> Qc -> Qc) (cands : list Qc) (fallback : option Qc) :
  (if (0 <? length (js_sort cmp (Js.slice_from (map Some cands) (-3))))%nat
   then js_sort cmp (Js.slice_from (map Some cands) (-3))
   else [fallback])
  = match cands with
    | [] => [fallback]
    | _ :: _ => map Some (sort_numbers cmp (Spec.most_recent 3 cands))
    end.
Proof.
  rewrite slice_from_most_recent, most_recent_map, js_sort_defined.
  rewrite length_map.
  rewrite <- (Permutation_length (sort_numbers_perm cmp _)).
  rewrite most_recent_length.
  destruct cands as [|c cands]; [reflexivity|].
  simpl length. destruct (Nat.ltb_spec 0 (Nat.min 3 (S (length cands))));
    [reflexivity | lia].
Qed.

Lemma nth_error_last (a : list Qc) :
  a <> [] -> nth_error a (length a - 1) = Some (last a 0).
Proof.
  induction a as [|x a IH]; intros H; [contradiction|].
  destruct a as [|y a]; [reflexivity|].
  change (last (x :: y :: a) 0) with (last (y :: a) 0).
  rewrite <- IH by discriminate. simpl. now rewrite Nat.sub_0_r.
Qed.

Lemma at_index_last (a : list Qc) :
  a <> [] -> Js.at_index a (Z.of_nat (length a) - 1) = Some (last a 0).
Proof.
  intros H. unfold Js.at_index.
  assert (0 < length a)%nat by (destruct a; [contradiction | simpl; lia]).
  destruct (Z.ltb_spec (Z.of_nat (length a) - 1) 0); [lia|].
  replace (Z.to_nat (Z.of_nat (length a) - 1)) with (length a - 1)%nat by lia.
  now apply nth_error_last.
Qed.

Lemma findSupportResistance_unfold (lows highs : list Qc) (sc rc : list Qc) :
  pivot_loop lows highs = (map Some sc, map Some rc) ->
  findSupportResistance lows highs
  = mkLevels
      match sc with
      | [] => [Js.at_index lows (Z.of_nat (length lows) - 1)]
      | _ :: _ =>
          map Some (sort_numbers (fun a b => b - a) (Spec.most_recent 3 sc))
      end
      match rc with
      | [] => [Js.at_index highs (Z.of_nat (length highs) - 1)]
      | _ :: _ =>
          map Some (sort_numbers (fun a b => a - b) (Spec.most_recent 3 rc))
      end.
Proof.
  intros E. unfold findSupportResistance. rewrite E.
  now rewrite !returned_levels.
Qed.

(** C7.  For lows and highs of a common length [n]: the support candidates
    are the lows at the indices 2 to n-3 that are strictly below their two
    left and two right neighbours, the resistance candidates the highs
    strictly above theirs.  When candidates of a kind exist, the returned
    list holds the most recent three of them (all, if fewer), the supports
    in descending and the resistances in ascending order; when none exist
    it is the single last low, respectively the single last high, of the
    series. *)
Theorem C7_levels_from_local_extrema :
  forall lows highs : list Qc,
    length lows = length highs ->
    let r := findSupportResistance lows highs in
    let sc := Spec.support_candidates lows in
    let rc := Spec.resistance_candidates highs in
    (sc <> [] ->
     exists s, support r = map Some s /\
               Permutation (Spec.most_recent 3 sc) s /\ Spec.descending s) /\
    (sc = [] -> lows <> [] -> support r = [Some (last lows 0)]) /\
    (rc <> [] ->
     exists s, resistance r = map Some s /\
               Permutation (Spec.most_recent 3 rc) s /\ Spec.ascending s) /\
    (rc = [] -> highs <> [] -> resistance r = [Some (last highs 0)]).
Proof.
  intros lows highs E r sc rc. subst r.
  rewrite (findSupportResistance_unfold lows highs sc rc (pivot_loop_spec _ _ E)).
  cbn [support resistance].
  split; [|split; [|split]].
  - intros H. destruct sc as [|c sc']; [contradiction|].
    eexists. split; [reflexivity|].
    split; [apply sort_numbers_perm | apply sort_descending].
  - intros H Hl. rewrite H. now rewrite at_index_last.
  - intros H. destruct rc as [|c rc']; [contradiction|].
    eexists. split; [reflexivity|].
    split; [apply sort_numbers_perm | apply sort_ascending].
  - intros H Hl. rewrite H. now rewrite at_index_last.
Qed.

Lemma C7_levels_from_local_extrema_witness :
  let lows := map Js.num [5; 4; 3; 4; 5; 1; 5; 6]%Z in
  let highs := map Js.num [6; 6; 6; 6; 6; 6; 6; 6]%Z in
  (exists s, support (findSupportResistance lows highs) = map Some s /\
             Permutation
               (Spec.most_recent 3 (Spec.support_candidates lows)) s /\
             Spec.descending s) /\
  resistance (findSupportResistance lows highs) = [Some (last highs 0)].
Proof.
  intros lows highs.
  destruct (C7_levels_from_local_extrema lows highs) as (Hs & _ & _ & Hr).
  - reflexivity.
  - split.
    + apply Hs. vm_compute. discriminate.
    + apply Hr; [vm_compute; reflexivity | discriminate].
Defined.

Lemma level_list_bounds (cmp : Qc -> Qc -> Qc) (cands a : list Qc) :
  a <> [] ->
  let l := match cands with
           | [] => [Js.at_index a (Z.of_nat (length a) - 1)]
           | _ :: _ => map Some (sort_numbers cmp (Spec.most_recent 3 cands))
           end in
  (1 <= length l <= 3)%nat /\ Forall (fun v => exists x : Qc, v = Some x) l.
Proof.
  intros Ha l. subst l. destruct cands as [|c cands].
  - rewrite at_index_last by exact Ha. split; [simpl; lia|].
    constructor; [eauto | constructor].
  - split.
    + rewrite length_map, <- (Permutation_length (sort_numbers_perm cmp _)).
      rewrite most_recent_length. simpl length. lia.
    + apply Forall_forall. intros v Hv. apply in_map_iff in Hv as (x & Hx & _).
      eauto.
Qed.

(** C10.  For non-empty lows and highs the detector returns between one
    and three support levels and between one and three resistance levels,
    each of them a number.  For empty input the fallback reads past the end
    of the series: each list then holds a single [undefined], which is not a
    price level. *)
Theorem C10_levels_between_one_and_three :
  (forall lows highs : list Qc,
     lows <> [] -> highs <> [] ->
     let r := findSupportResistance lows highs in
     ((1 <= length (support r) <= 3)%nat /\
      Forall (fun v => exists x : Qc, v = Some x) (support r)) /\
     ((1 <= length (resistance r) <= 3)%nat /\
      Forall (fun v => exists x : Qc, v = Some x) (resistance r))) /\
  findSupportResistance [] [] = mkLevels [None] [None].
Proof.
  split; [|reflexivity].
  intros lows highs Hl Hh r. subst r.
  rewrite (findSupportResistance_unfold lows highs _ _
             (pivot_loop_candidates lows highs)).
  cbn [support resistance].
  split; now apply level_list_bounds.
Qed.

Lemma C10_levels_between_one_and_three_witness :
  (1 <= length (support (findSupportResistance [Js.num 7] [Js.num 9])) <= 3)%nat.
Proof.
  destruct C10_levels_between_one_and_three as [H _].
  destruct (H [Js.num 7] [Js.num 9]) as [[Hlen _] _];
    [discriminate | discriminate | exact Hlen].
Defined.

(** ** MACD signal line on a flat series *)

Lemma fraction_inj (v : option Qc) (q : Qc) :
  fraction v = Some (this q) -> v = Some q.
Proof.
  destruct v as [x|]; simpl; [|discriminate].
  intros H. injection H as H. f_equal. apply Qc_is_canon. now rewrite H.
Qed.

(** C3.  On thirty-four equal closes the MACD line is defined from index 25
    on and is zero there; index 33 is the ninth defined position, the ninth
    entry of the 9-period EMA of the compacted MACD values is the number
    zero, and yet the signal slot at index 33 is absent: the source writes
    [signalEma[validIndex] || null], which turns a zero into [null]. *)
Theorem C3_zero_signal_value_is_dropped :
  let m := calculateMACD Example.flat_closes in
  slot (macd m) 33 = Some 0 /\
  length (filter_defined (firstn 33 (macd m))) = 8%nat /\
  slot (calculateEMA (filter_defined (macd m)) 9) 8 = Some 0 /\
  nth_error (signal m) 33 = Some None.
Proof.
  cbv zeta. split; [|split; [|split]].
  - apply fraction_inj. vm_compute. reflexivity.
  - vm_compute. reflexivity.
  - apply fraction_inj. vm_compute. reflexivity.
  - vm_compute. reflexivity.
Qed.

(** ** Defaults fed to the signal synthesizer *)

Lemma or_else_zero {A : Type} (inj : Qc -> A) (d : A) :
  Js.or_else inj (Some 0) d = d.
Proof. reflexivity. Qed.

(** C9.  The defaults of the synthesizer input replace every falsy latest
    value, not only absent ones.  On fifteen strictly falling closes the
    latest RSI is the number 0, the synthesizer nevertheless receives 50 and
    reports the RSI sub-signal as NEUTRAL, not as the BUY that an RSI of 0
    would give.  Likewise a latest MA20, MA50 or Bollinger band that is
    the number 0 is replaced by the current price, as happens for the MA20
    of a series whose last twenty closes sum to zero. *)
Theorem C9_defaults_replace_zero :
  forall sqrt : Qc -> Qc,
    (exists closes : list Qc,
       i_rsi (latestIndicators sqrt closes) = Some 0 /\
       rsi (signalInput sqrt closes) = Js.num 50 /\
       sub_signal (sig_rsi (signals (calculateSignal (signalInput sqrt closes))))
       = "NEUTRAL"%string /\
       sub_signal
         (snd (rsi_contribution
                 (mkSignalData None None None 0 0 0 None None)))
       = "BUY"%string) /\
    (exists closes : list Qc,
       i_ma20 (latestIndicators sqrt closes) = Some 0 /\
       currentPrice (signalInput sqrt closes) = Some (Js.num 1) /\
       ma20 (signalInput sqrt closes) = Some (Js.num 1)) /\
    (forall closes : list Qc,
       let d := signalInput sqrt closes in
       let ind := latestIndicators sqrt closes in
       (i_ma20 ind = Some 0 -> ma20 d = currentPrice d) /\
       (i_ma50 ind = Some 0 -> ma50 d = currentPrice d) /\
       (i_bollingerUpper ind = Some 0 -> bollingerUpper d = currentPrice d) /\
       (i_bollingerLower ind = Some 0 -> bollingerLower d = currentPrice d)).
Proof.
  intros sqrt. split; [|split].
  - exists Example.falling_closes.
    assert (E : i_rsi (latestIndicators sqrt Example.falling_closes) = Some 0).
    { cbn [latestIndicators i_rsi]. apply fraction_inj. vm_compute. reflexivity. }
    split; [exact E|].
    assert (R : rsi (signalInput sqrt Example.falling_closes) = Js.num 50).
    { cbn [signalInput rsi]. rewrite E. reflexivity. }
    split; [exact R|]. split; [|reflexivity].
    cbn [calculateSignal signals sig_rsi]. unfold rsi_contribution.
    rewrite R. reflexivity.
  - exists Example.zero_mean_closes.
    assert (E : i_ma20 (latestIndicators sqrt Example.zero_mean_closes) = Some 0).
    { cbn [latestIndicators i_ma20]. apply fraction_inj. vm_compute. reflexivity. }
    split; [exact E|].
    assert (P : currentPrice (signalInput sqrt Example.zero_mean_closes)
                = Some (Js.num 1)) by reflexivity.
    split; [exact P|].
    cbn [signalInput ma20]. rewrite E. exact P.
  - intros closes d ind. subst d ind. cbn [signalInput ma20 ma50 bollingerUpper
      bollingerLower currentPrice].
    repeat split; intros H; rewrite H; reflexivity.
Qed.

Lemma C9_defaults_replace_zero_witness :
  ma20 (signalInput (fun x => x) Example.zero_mean_closes)
  = currentPrice (signalInput (fun x => x) Example.zero_mean_closes).
Proof.
  destruct (C9_defaults_replace_zero (fun x => x)) as (_ & _ & H).
  destruct (H Example.zero_mean_closes) as (H20 & _).
  apply H20. cbn [latestIndicators i_ma20]. apply fraction_inj.
  vm_compute. reflexivity.
Defined.

(** ** Input shape *)





(** * Further properties *)

(** ** Watchlist *)

Lemma includes_symbol_In (w : list string) (s : string) :
  Dashboard.includes_symbol w s = true <-> In s w.
Proof.
  unfold Dashboard.includes_symbol. rewrite existsb_exists. split.
  - intros (x & Hx & E). apply String.eqb_eq in E. now subst.
  - intros H. exists s. split; [exact H | apply String.eqb_refl].
Qed.

(** Toggling a symbol flips its membership in the watchlist and leaves the
    membership of every other symbol as it was; the toast says "Removed"
    exactly when the symbol was a member. *)
Theorem toggleWatchlist_membership :
  forall (w : list string) (symbol s : string),
    Dashboard.includes_symbol (fst (Dashboard.toggleWatchlist w symbol)) s
    = (if String.eqb s symbol then negb (Dashboard.includes_symbol w symbol)
       else Dashboard.includes_symbol w s) /\
    snd (Dashboard.toggleWatchlist w symbol)
    = (if Dashboard.includes_symbol w symbol
       then "Removed from Watchlist" else "Added to Watchlist")%string.
Proof.
  intros w symbol s. split; [|reflexivity].
  unfold Dashboard.toggleWatchlist. cbn [fst].
  destruct (Dashboard.includes_symbol w symbol) eqn:M.
  - destruct (String.eqb_spec s symbol) as [->|N]; cbn [negb].
    + destruct (Dashboard.includes_symbol (filter _ w) symbol) eqn:E;
        [|reflexivity].
      apply includes_symbol_In, filter_In in E as [_ E].
      now rewrite String.eqb_refl in E.
    + destruct (Dashboard.includes_symbol w s) eqn:E.
      * apply includes_symbol_In. apply filter_In. split.
        -- now apply includes_symbol_In.
        -- apply negb_true_iff. now apply String.eqb_neq.
      * destruct (Dashboard.includes_symbol (filter _ w) s) eqn:F; [|reflexivity].
        apply includes_symbol_In, filter_In in F as [F _].
        apply includes_symbol_In in F. congruence.
  - unfold Dashboard.includes_symbol in *. rewrite existsb_app. cbn [existsb].
    rewrite orb_false_r.
    destruct (String.eqb_spec s symbol) as [->|N]; cbn [negb].
    + apply orb_true_r.
    + apply orb_false_r.
Qed.

(** A watchlist without repeated symbols stays without repeated symbols
    when a symbol is toggled. *)
Theorem toggleWatchlist_keeps_symbols_distinct :
  forall (w : list string) (symbol : string),
    NoDup w -> NoDup (fst (Dashboard.toggleWatchlist w symbol)).
Proof.
  intros w symbol H. unfold Dashboard.toggleWatchlist. cbn [fst].
  destruct (Dashboard.includes_symbol w symbol) eqn:M.
  - now apply NoDup_filter.
  - apply NoDup_app; [exact H | repeat constructor; intros [] |].
    intros x Hx [<-|[]]. apply includes_symbol_In in Hx. congruence.
Qed.

Lemma toggleWatchlist_keeps_symbols_distinct_witness :
  NoDup (fst (Dashboard.toggleWatchlist ["TCS.NS"; "INFY.NS"]%string
                "TCS.NS"%string)).
Proof.
  apply toggleWatchlist_keeps_symbols_distinct.
  repeat constructor; simpl; intuition discriminate.
Defined.

(** Adding a symbol that is not on the watchlist and toggling it again
    gives back the original watchlist. *)
Theorem toggleWatchlist_add_then_remove :
  forall (w : list string) (symbol : string),
    Dashboard.includes_symbol w symbol = false ->
    fst (Dashboard.toggleWatchlist
           (fst (Dashboard.toggleWatchlist w symbol)) symbol) = w.
Proof.
  intros w symbol M.
  assert (A : fst (Dashboard.toggleWatchlist w symbol) = w ++ [symbol]).
  { unfold Dashboard.toggleWatchlist. now rewrite M. }
  rewrite A. unfold Dashboard.toggleWatchlist. cbn [fst].
  replace (Dashboard.includes_symbol (w ++ [symbol]) symbol) with true.
  - rewrite filter_app. cbn [filter]. rewrite String.eqb_refl. cbn [negb].
    rewrite app_nil_r. apply forallb_filter_id. apply forallb_forall.
    intros x Hx. apply negb_true_iff, String.eqb_neq. intros ->.
    apply includes_symbol_In in Hx. congruence.
  - symmetry. apply includes_symbol_In. apply in_or_app. right. now left.
Qed.

Lemma toggleWatchlist_add_then_remove_witness :
  fst (Dashboard.toggleWatchlist
         (fst (Dashboard.toggleWatchlist ["TCS.NS"]%string "INFY.NS"%string))
         "INFY.NS"%string) = ["TCS.NS"]%string.
Proof.
  apply toggleWatchlist_add_then_remove. reflexivity.
Defined.

(** ** Refresh countdown *)

Lemma countdown_run_no_fetch (n : nat) (c : Z) :
  (Z.of_nat n < c)%Z ->
  Dashboard.countdown_run n c = ((c - Z.of_nat n)%Z, repeat false n).
Proof.
  revert c. induction n as [|n IH]; intros c H.
  - simpl. f_equal. lia.
  - cbn [Dashboard.countdown_run]. unfold Dashboard.countdown_tick.
    destruct (Z.leb_spec c 1); [lia|].
    rewrite IH by lia. simpl repeat. f_equal. lia.
Qed.

Lemma countdown_run_app (a b : nat) (c : Z) :
  Dashboard.countdown_run (a + b) c
  = (fst (Dashboard.countdown_run b (fst (Dashboard.countdown_run a c))),
     snd (Dashboard.countdown_run a c)
     ++ snd (Dashboard.countdown_run b (fst (Dashboard.countdown_run a c)))).
Proof.
  revert c. induction a as [|a IH]; intros c.
  - simpl. now destruct (Dashboard.countdown_run b c).
  - cbn [Nat.add Dashboard.countdown_run].
    destruct (Dashboard.countdown_tick c) as [next fetched].
    rewrite IH. destruct (Dashboard.countdown_run a next) as [final log].
    reflexivity.
Qed.

(** A countdown between 1 and 60 stays between 1 and 60 at every tick;
    started at [c], it fetches the data at the [c]-th tick and at no
    earlier one, and is then back at 60. *)
Theorem countdown_fetches_when_it_expires :
  forall c : Z,
    (1 <= c <= 60)%Z ->
    (1 <= fst (Dashboard.countdown_tick c) <= 60)%Z /\
    Dashboard.countdown_run (Z.to_nat c) c
    = (60%Z, repeat false (Z.to_nat c - 1) ++ [true]).
Proof.
  intros c H. split.
  - unfold Dashboard.countdown_tick. destruct (Z.leb_spec c 1); simpl; lia.
  - replace (Z.to_nat c) with (Z.to_nat c - 1 + 1)%nat at 1 by lia.
    rewrite countdown_run_app.
    rewrite (countdown_run_no_fetch (Z.to_nat c - 1) c) by lia. cbn [fst snd].
    replace (c - Z.of_nat (Z.to_nat c - 1))%Z with 1%Z by lia.
    reflexivity.
Qed.

Lemma countdown_fetches_when_it_expires_witness :
  Dashboard.countdown_run 3 3 = (60%Z, [false; false; true]).
Proof.
  destruct (countdown_fetches_when_it_expires 3) as [_ H]; [lia|]. exact H.
Defined.

(** ** Colours *)

(** The sentiment returned by the scorer is shown in green when the score
    is at least 60, in red when it is below 40, and in yellow otherwise. *)
Theorem sentiment_colour_follows_score :
  forall rsi macd priceVsMA20 : Qc,
    let r := determineMarketSentiment rsi macd priceVsMA20 in
    Dashboard.getSentimentColor (sentiment r)
    = (if Js.geb (score r) (Js.num 60) then "text-green-500"
       else if Js.geb (score r) (Js.num 40) then "text-yellow-500"
       else "text-red-500")%string.
Proof.
  intros rsi macd p. cbv zeta. unfold determineMarketSentiment.
  cbn [sentiment score].
  set (s := Js.max 0 _). clearbody s.
  destruct (ltb_case s (Js.num 80)) as [H80|H80];
  destruct (ltb_case s (Js.num 60)) as [H60|H60];
  destruct (ltb_case s (Js.num 40)) as [H40|H40];
  destruct (ltb_case s (Js.num 20)) as [H20|H20];
  unfold Js.geb;
  repeat match goal with
         | H : ?a < ?b |- _ => apply ltb_lt in H; rewrite ?H
         | H : ?b <= ?a |- _ => apply ltb_ge in H; rewrite ?H
         end;
  try reflexivity.
  all: exfalso;
    repeat match goal with
           | H : Js.ltb _ _ = true |- _ => apply ltb_lt in H
           | H : Js.ltb _ _ = false |- _ => apply ltb_ge in H
           end.
  all: try (apply (Qclt_not_le _ _ H60); eapply Qcle_trans; [|exact H80]; discriminate).
  all: try (apply (Qclt_not_le _ _ H40); eapply Qcle_trans; [|exact H80]; discriminate).
  all: try (apply (Qclt_not_le _ _ H40); eapply Qcle_trans; [|exact H60]; discriminate).
Qed.

(** ** Arithmetic on numbers *)

(** Turns order statements on canonical rationals into statements on plain
    fractions, where [lra] and [nra] apply. *)
Ltac to_fractions :=
  unfold Qcle, Qclt, Qcdiv, Qcminus, Qcinv, Qcopp, Qcplus, Qcmult, Q2Qc in *;
  cbn [this] in *; rewrite ?Qred_correct in *.

Lemma num_pos (n : nat) : (1 <= n)%nat -> 0 < Js.num (Z.of_nat n).
Proof.
  intros H. unfold Js.num. to_fractions.
  unfold Qlt, inject_Z. simpl. lia.
Qed.

Lemma sum_from (l : list Qc) (a : Qc) : fold_left Qcplus l a = a + Js.sum l.
Proof.
  unfold Js.sum. revert a. induction l as [|x l IH]; intros a; simpl.
  - ring.
  - rewrite IH, (IH (0 + x)). ring.
Qed.

Lemma sum_cons (x : Qc) (l : list Qc) : Js.sum (x :: l) = x + Js.sum l.
Proof. unfold Js.sum at 1. simpl. rewrite sum_from. ring. Qed.

(** ** Windows of a series *)

Lemma slice_window {A : Type} (a : list A) (s e : nat) :
  (s <= e <= length a)%nat ->
  Js.slice a (Z.of_nat s) (Z.of_nat e) = firstn (e - s) (skipn s a).
Proof.
  intros H. unfold Js.slice.
  destruct (Z.ltb_spec (Z.of_nat s) 0); [lia|].
  destruct (Z.ltb_spec (Z.of_nat e) 0); [lia|].
  rewrite !Z.min_l by lia. f_equal; [lia|]. f_equal. lia.
Qed.

(** ** Simple moving average *)

Lemma calculateSMA_value (data : list Qc) (period i : nat) :
  (1 <= period <= i + 1)%nat -> (i < length data)%nat ->
  nth_error (calculateSMA data period) i
  = Some (Some (Js.sum (firstn period (skipn (i + 1 - period) data))
                / Js.num (Z.of_nat period))).
Proof.
  intros Hp Hi. unfold calculateSMA. rewrite for_push_nth_error by exact Hi.
  destruct (Z.ltb_spec (Z.of_nat i) (Z.of_nat period - 1)); [lia|].
  replace (Z.of_nat i - Z.of_nat period + 1)%Z
    with (Z.of_nat (i + 1 - period)) by lia.
  replace (Z.of_nat i + 1)%Z with (Z.of_nat (i + 1)) by lia.
  rewrite slice_window by lia.
  replace (i + 1 - (i + 1 - period))%nat with period by lia. reflexivity.
Qed.

(** ** Exponential moving average *)

Lemma calculateEMA_step (data : list Qc) (period i : nat) :
  (1 <= period)%nat -> (i < length data)%nat ->
  nth_error (calculateEMA data period) i
  = Some
      (if (Z.of_nat i <? Z.of_nat period - 1)%Z then None
       else if (Z.of_nat i =? Z.of_nat period - 1)%Z then
         Some (Js.sum (Js.slice data 0 (Z.of_nat period))
               / Js.num (Z.of_nat period))
       else
         match slot (calculateEMA data period) (i - 1) with
         | Some prevEma =>
             Some ((nth i data 0 - prevEma)
                   * (Js.num 2 / (Js.num (Z.of_nat period) + 1)) + prevEma)
         | None => None
         end).
Proof.
  intros Hp Hi. unfold calculateEMA.
  match goal with |- context [Js.for_push _ ?b] => set (body := b) end.
  rewrite for_push_nth_error by exact Hi. f_equal.
  unfold body at 1. cbv beta.
  destruct (Z.ltb_spec (Z.of_nat i) (Z.of_nat period - 1)); [reflexivity|].
  destruct (Z.eqb_spec (Z.of_nat i) (Z.of_nat period - 1)); [reflexivity|].
  unfold Js.at_index, slot.
  destruct (Z.ltb_spec (Z.of_nat i - 1) 0); [lia|].
  replace (Z.to_nat (Z.of_nat i - 1)) with (i - 1)%nat by lia.
  rewrite (for_push_nth_error body i (i - 1)) by lia.
  rewrite (for_push_nth_error body (length data) (i - 1)) by lia.
  destruct (body (Js.for_push (i - 1) body) (i - 1)%nat); reflexivity.
Qed.

Lemma calculateEMA_defined (data : list Qc) (period i : nat) :
  (1 <= period <= i + 1)%nat -> (i < length data)%nat ->
  exists v, slot (calculateEMA data period) i = Some v.
Proof.
  intros Hp. induction i as [|i IH]; intros Hi; unfold slot;
    rewrite calculateEMA_step by (lia || exact Hi).
  - destruct (Z.ltb_spec (Z.of_nat 0) (Z.of_nat period - 1)); [lia|].
    destruct (Z.eqb_spec (Z.of_nat 0) (Z.of_nat period - 1)); [eauto|lia].
  - destruct (Z.ltb_spec (Z.of_nat (S i)) (Z.of_nat period - 1)); [lia|].
    destruct (Z.eqb_spec (Z.of_nat (S i)) (Z.of_nat period - 1)); [eauto|].
    replace (S i - 1)%nat with i by lia.
    destruct IH as [v Hv]; [lia | lia |]. rewrite Hv. eauto.
Qed.

(** For a positive period the EMA slot at an index [i] of the series is
    absent below index [period - 1], is the mean of the first [period]
    values at index [period - 1], and from then on holds the number
    [(data[i] - prev) * 2 / (period + 1) + prev] computed from the number
    [prev] in the slot before it: the slot read by the recurrence is never
    absent. *)
Theorem ema_seed_and_recurrence :
  forall (data : list Qc) (period i : nat),
    (1 <= period)%nat -> (i < length data)%nat ->
    ((i + 1 < period)%nat ->
     nth_error (calculateEMA data period) i = Some None) /\
    ((i + 1 = period)%nat ->
     nth_error (calculateEMA data period) i
     = Some (Some (Js.sum (firstn period data) / Js.num (Z.of_nat period)))) /\
    ((period <= i)%nat ->
     exists prev : Qc,
       nth_error (calculateEMA data period) (i - 1) = Some (Some prev) /\
       nth_error (calculateEMA data period) i
       = Some (Some ((nth i data 0 - prev)
                     * (Js.num 2 / (Js.num (Z.of_nat period) + 1)) + prev))).
Proof.
  intros data period i Hp Hi. rewrite calculateEMA_step by assumption.
  split; [|split]; intros H.
  - destruct (Z.ltb_spec (Z.of_nat i) (Z.of_nat period - 1)); [reflexivity|lia].
  - destruct (Z.ltb_spec (Z.of_nat i) (Z.of_nat period - 1)); [lia|].
    destruct (Z.eqb_spec (Z.of_nat i) (Z.of_nat period - 1)); [|lia].
    change 0%Z with (Z.of_nat 0). rewrite slice_window by lia.
    now rewrite Nat.sub_0_r.
  - destruct (Z.ltb_spec (Z.of_nat i) (Z.of_nat period - 1)); [lia|].
    destruct (Z.eqb_spec (Z.of_nat i) (Z.of_nat period - 1)); [lia|].
    destruct (calculateEMA_defined data period (i - 1)) as [prev Hprev];
      [lia | lia |].
    exists prev. rewrite Hprev. split; [|reflexivity].
    unfold slot in Hprev.
    destruct (nth_error (calculateEMA data period) (i - 1)) as [s|] eqn:E.
    + now subst s.
    + apply nth_error_None in E. rewrite calculateEMA_length in E. lia.
Qed.

Lemma ema_seed_and_recurrence_witness :
  exists prev : Qc,
    nth_error (calculateEMA [Js.num 2; Js.num 4; Js.num 9] 2) 1
    = Some (Some prev) /\
    nth_error (calculateEMA [Js.num 2; Js.num 4; Js.num 9] 2) 2
    = Some (Some ((Js.num 9 - prev) * (Js.num 2 / (Js.num 2 + 1)) + prev)).
Proof.
  destruct (ema_seed_and_recurrence [Js.num 2; Js.num 4; Js.num 9] 2 2)
    as (_ & _ & H); [lia | simpl; lia |].
  apply H. lia.
Defined.

Lemma slot_nth_error (a : list (option Qc)) (i : nat) (v : Qc) :
  slot a i = Some v <-> nth_error a i = Some (Some v).
Proof.
  unfold slot. destruct (nth_error a i) as [[x|]|]; split; intros H;
    try discriminate; congruence.
Qed.

(** ** RSI: range and extreme values *)

Lemma calculateRSI_value (closes : list Qc) (period i : nat) :
  (period <= i)%nat -> (i < length closes)%nat ->
  nth_error (calculateRSI closes period) i
  = Some (Some (if Js.eqb (Spec.avgLoss closes period i) 0 then Js.num 100
                else Js.num 100
                     - Js.num 100
                       / (1 + Spec.avgGain closes period i
                              / Spec.avgLoss closes period i))).
Proof.
  intros H Hi. unfold calculateRSI. rewrite for_push_nth_error by exact Hi.
  destruct (Nat.ltb_spec i period); [lia|].
  rewrite (rsi_accumulate_sums closes period i H).
  fold (Spec.avgGain closes period i). fold (Spec.avgLoss closes period i).
  now destruct (Js.eqb (Spec.avgLoss closes period i) 0).
Qed.

Lemma gain_nonneg (closes : list Qc) (j : nat) : 0 <= Spec.gain closes j.
Proof.
  unfold Spec.gain, Js.gtb. destruct (ltb_case 0 (Spec.delta closes j)).
  - now apply Qclt_le_weak.
  - apply Qcle_refl.
Qed.

Lemma loss_nonneg (closes : list Qc) (j : nat) : 0 <= Spec.loss closes j.
Proof.
  unfold Spec.loss, Js.abs. destruct (ltb_case (Spec.delta closes j) 0) as [H|H].
  - change 0 with (Q2Qc 0) in *. to_fractions. lra.
  - apply Qcle_refl.
Qed.

Lemma sum_nonneg (l : list Qc) : Forall (fun x => 0 <= x) l -> 0 <= Js.sum l.
Proof.
  induction 1 as [|x l Hx _ IH].
  - apply Qcle_refl.
  - rewrite sum_cons. change 0 with (Q2Qc 0) in *. to_fractions. lra.
Qed.

Lemma sum_zero (l : list Qc) : Forall (fun x => x = 0) l -> Js.sum l = 0.
Proof.
  induction 1 as [|x l Hx _ IH]; [reflexivity|].
  rewrite sum_cons, Hx, IH. ring.
Qed.

Lemma sum_pos (l : list Qc) :
  l <> [] -> Forall (fun x => 0 < x) l -> 0 < Js.sum l.
Proof.
  intros Hl H. destruct H as [|x l Hx H]; [contradiction|].
  rewrite sum_cons.
  assert (S0 : 0 <= Js.sum l).
  { apply sum_nonneg. eapply Forall_impl; [|exact H].
    intros a Ha. now apply Qclt_le_weak. }
  change 0 with (Q2Qc 0) in *. to_fractions. lra.
Qed.

Lemma div_zero (n : Qc) : 0 / n = 0.
Proof. unfold Qcdiv. apply Qcmult_0_l. Qed.

Lemma div_nonneg (s n : Qc) : 0 <= s -> 0 < n -> 0 <= s / n.
Proof.
  intros Hs Hn. change 0 with (Q2Qc 0) in *. to_fractions.
  apply Qle_shift_div_l; lra.
Qed.

Lemma div_pos (s n : Qc) : 0 < s -> 0 < n -> 0 < s / n.
Proof.
  intros Hs Hn. change 0 with (Q2Qc 0) in *. to_fractions.
  apply Qlt_shift_div_l; lra.
Qed.

Lemma rsi_formula_range (g l : Qc) :
  0 <= g -> 0 < l ->
  0 <= Js.num 100 - Js.num 100 / (1 + g / l) /\
  Js.num 100 - Js.num 100 / (1 + g / l) <= Js.num 100.
Proof.
  intros Hg Hl. pose proof (div_nonneg g l Hg Hl) as Hr.
  set (r := g / l) in *. clearbody r.
  assert (H100 : 0 <= Js.num 100) by discriminate.
  set (c := Js.num 100) in *. clearbody c.
  change 1 with (Q2Qc 1) in *. change 0 with (Q2Qc 0) in *. to_fractions.
  assert (A : (0 <= c * / (1 + r))%Q) by (apply Qle_shift_div_l; lra).
  assert (B : (c * / (1 + r) <= c)%Q) by (apply Qle_shift_div_r; nra).
  split; lra.
Qed.

Lemma avgGain_nonneg (closes : list Qc) (period i : nat) :
  (1 <= period)%nat -> 0 <= Spec.avgGain closes period i.
Proof.
  intros Hp. apply div_nonneg; [|now apply num_pos].
  apply sum_nonneg, Forall_forall. intros x Hx.
  apply in_map_iff in Hx as (j & <- & _). apply gain_nonneg.
Qed.

Lemma avgLoss_nonneg (closes : list Qc) (period i : nat) :
  (1 <= period)%nat -> 0 <= Spec.avgLoss closes period i.
Proof.
  intros Hp. apply div_nonneg; [|now apply num_pos].
  apply sum_nonneg, Forall_forall. intros x Hx.
  apply in_map_iff in Hx as (j & <- & _). apply loss_nonneg.
Qed.

Lemma calculateRSI_defined_from_period (closes : list Qc) (period i : nat) (v : Qc) :
  nth_error (calculateRSI closes period) i = Some (Some v) ->
  (period <= i)%nat /\ (i < length closes)%nat.
Proof.
  intros H.
  assert (Hi : (i < length closes)%nat).
  { rewrite <- (calculateRSI_length closes period).
    apply nth_error_Some. rewrite H. discriminate. }
  split; [|exact Hi].
  unfold calculateRSI in H. rewrite for_push_nth_error in H by exact Hi.
  destruct (Nat.ltb_spec i period); [discriminate | assumption].
Qed.

(** Every number in the RSI output lies between 0 and 100, for any
    positive period. *)
Theorem rsi_between_0_and_100 :
  forall (closes : list Qc) (period i : nat) (v : Qc),
    (1 <= period)%nat ->
    nth_error (calculateRSI closes period) i = Some (Some v) ->
    0 <= v /\ v <= Js.num 100.
Proof.
  intros closes period i v Hp H.
  destruct (calculateRSI_defined_from_period _ _ _ _ H) as [Hpi Hi].
  rewrite calculateRSI_value in H by assumption. injection H as <-.
  destruct (Js.eqb (Spec.avgLoss closes period i) 0) eqn:E.
  - split; [discriminate | apply Qcle_refl].
  - apply rsi_formula_range; [now apply avgGain_nonneg|].
    destruct (Qcle_lt_or_eq _ _ (avgLoss_nonneg closes period i Hp)) as [L|L];
      [exact L|].
    symmetry in L. apply eqb_eq in L. congruence.
Qed.

Lemma rsi_between_0_and_100_witness :
  0 <= Q2Qc (200 # 3) /\ Q2Qc (200 # 3) <= Js.num 100.
Proof.
  apply (rsi_between_0_and_100 [Js.num 3; Js.num 5; Js.num 4] 2 2
           (Q2Qc (200 # 3)) ltac:(lia)).
  apply slot_nth_error, fraction_inj. vm_compute. reflexivity.
Defined.

Lemma diff_neg_lt (a b : Qc) : a - b < 0 -> a < b.
Proof. change 0 with (Q2Qc 0). to_fractions. intros; lra. Qed.

Lemma diff_pos_lt (a b : Qc) : 0 < a - b -> b < a.
Proof. change 0 with (Q2Qc 0). to_fractions. intros; lra. Qed.

Lemma diff_nonneg_le (a b : Qc) : 0 <= a - b -> b <= a.
Proof. change 0 with (Q2Qc 0). to_fractions. intros; lra. Qed.

Lemma diff_neg_opp (a b : Qc) : a - b < 0 -> 0 < - (a - b).
Proof. change 0 with (Q2Qc 0). to_fractions. intros; lra. Qed.

(** With a positive period, at an index [i] from the period on: when no
    close of the trailing window is below its predecessor the RSI is
    exactly 100, and when every close of the window is below its
    predecessor the RSI is exactly 0. *)
Theorem rsi_on_monotone_window :
  forall (closes : list Qc) (period i : nat),
    (1 <= period <= i)%nat -> (i < length closes)%nat ->
    ((forall j, (i + 1 - period <= j <= i)%nat ->
                nth (j - 1) closes 0 <= nth j closes 0) ->
     nth_error (calculateRSI closes period) i = Some (Some (Js.num 100))) /\
    ((forall j, (i + 1 - period <= j <= i)%nat ->
                nth j closes 0 < nth (j - 1) closes 0) ->
     nth_error (calculateRSI closes period) i = Some (Some 0)).
Proof.
  intros closes period i [Hp Hpi] Hi.
  rewrite calculateRSI_value by assumption.
  split; intros H.
  - assert (L : Spec.avgLoss closes period i = 0).
    { unfold Spec.avgLoss. rewrite sum_zero; [apply div_zero|].
      apply Forall_forall. intros x Hx. apply in_map_iff in Hx as (j & <- & Hj).
      apply in_seq in Hj. unfold Spec.loss, Spec.delta.
      destruct (ltb_case (nth j closes 0 - nth (j - 1) closes 0) 0) as [D|D];
        [|reflexivity].
      exfalso. specialize (H j ltac:(lia)).
      apply diff_neg_lt in D. exact (Qclt_not_le _ _ D H). }
    rewrite L. reflexivity.
  - assert (G : Spec.avgGain closes period i = 0).
    { unfold Spec.avgGain. rewrite sum_zero; [apply div_zero|].
      apply Forall_forall. intros x Hx. apply in_map_iff in Hx as (j & <- & Hj).
      apply in_seq in Hj. unfold Spec.gain, Spec.delta, Js.gtb.
      destruct (ltb_case 0 (nth j closes 0 - nth (j - 1) closes 0)) as [D|D];
        [|reflexivity].
      exfalso. specialize (H j ltac:(lia)).
      apply diff_pos_lt in D.
      exact (Qclt_not_le _ _ H (Qclt_le_weak _ _ D)). }
    assert (L : 0 < Spec.avgLoss closes period i).
    { unfold Spec.avgLoss. apply div_pos; [|now apply num_pos].
      apply sum_pos.
      - unfold Spec.trailing. destruct period; [lia|]. discriminate.
      - apply Forall_forall. intros x Hx.
        apply in_map_iff in Hx as (j & <- & Hj). apply in_seq in Hj.
        specialize (H j ltac:(lia)). unfold Spec.loss, Spec.delta, Js.abs.
        destruct (ltb_case (nth j closes 0 - nth (j - 1) closes 0) 0) as [D|D].
        + now apply diff_neg_opp.
        + exfalso. apply diff_nonneg_le in D. exact (Qclt_not_le _ _ H D). }
    destruct (Js.eqb (Spec.avgLoss closes period i) 0) eqn:E.
    + apply eqb_eq in E. rewrite E in L. discriminate.
    + rewrite G, div_zero.
      assert (Z0 : Js.num 100 - Js.num 100 / (1 + 0) = 0)
        by (apply Qc_is_canon; reflexivity).
      now rewrite Z0.
Qed.

Lemma rsi_on_monotone_window_witness :
  nth_error (calculateRSI [Js.num 1; Js.num 2; Js.num 3] 2) 2
  = Some (Some (Js.num 100)).
Proof.
  destruct (rsi_on_monotone_window [Js.num 1; Js.num 2; Js.num 3] 2 2)
    as [H _]; [lia | simpl; lia |].
  apply H. intros j Hj.
  assert (C : j = 1%nat \/ j = 2%nat) by lia.
  destruct C as [-> | ->]; discriminate.
Defined.

(** ** Bollinger bands *)

Lemma mult_nonneg (a b : Qc) : 0 <= a -> 0 <= b -> 0 <= a * b.
Proof.
  intros Ha Hb. change 0 with (Q2Qc 0) in *. to_fractions. nra.
Qed.

(** For a positive period, a non-negative band width and a square root
    that is never negative: at an index with fewer than [period] closes
    behind it the three band slots are absent; at every other index of the
    series all three hold numbers, the upper and lower band lie at the same
    distance above and below the middle band, and hence
    [lower <= middle <= upper]. *)
Theorem bollinger_bands_enclose_the_middle :
  forall (sqrt : Qc -> Qc) (closes : list Qc) (period i : nat) (stdDev : Qc),
    (forall x, 0 <= sqrt x) -> 0 <= stdDev ->
    (1 <= period)%nat -> (i < length closes)%nat ->
    let bb := calculateBollingerBands sqrt closes period stdDev in
    ((i + 1 < period)%nat ->
     nth_error (upper bb) i = Some None /\
     nth_error (middle bb) i = Some None /\
     nth_error (lower bb) i = Some None) /\
    ((period <= i + 1)%nat ->
     exists m d : Qc,
       0 <= d /\
       nth_error (middle bb) i = Some (Some m) /\
       nth_error (upper bb) i = Some (Some (m + d)) /\
       nth_error (lower bb) i = Some (Some (m - d))).
Proof.
  intros sqrt closes period i stdDev Hs Hk Hp Hi bb. subst bb.
  cbn [calculateBollingerBands upper middle lower]. unfold band.
  rewrite !for_push_nth_error by exact Hi.
  split; intros H.
  - unfold calculateSMA. rewrite for_push_nth_error by exact Hi.
    destruct (Z.ltb_spec (Z.of_nat i) (Z.of_nat period - 1)); [auto|lia].
  - destruct (Z.ltb_spec (Z.of_nat i) (Z.of_nat period - 1)); [lia|].
    pose proof (calculateSMA_value closes period i (conj Hp H) Hi) as M.
    unfold slot. rewrite M.
    eexists. eexists. split; [|split; [reflexivity|split; reflexivity]].
    apply mult_nonneg; [exact Hk | apply Hs].
Qed.

Lemma bollinger_bands_enclose_the_middle_witness :
  exists m d : Qc,
    0 <= d /\
    nth_error (middle (calculateBollingerBands (fun _ => 1)
                         [Js.num 1; Js.num 3] 2 (Js.num 2))) 1
    = Some (Some m) /\
    nth_error (upper (calculateBollingerBands (fun _ => 1)
                        [Js.num 1; Js.num 3] 2 (Js.num 2))) 1
    = Some (Some (m + d)).
Proof.
  destruct (bollinger_bands_enclose_the_middle (fun _ => 1)
              [Js.num 1; Js.num 3] 2 1 (Js.num 2)) as [_ H].
  - intros _. discriminate.
  - discriminate.
  - lia.
  - simpl. lia.
  - destruct H as (m & d & Hd & Hm & Hu & _); [lia|].
    exists m, d. repeat split; assumption.
Defined.

(** ** MACD *)

Lemma filter_defined_app (a b : list (option Qc)) :
  filter_defined (a ++ b) = filter_defined a ++ filter_defined b.
Proof.
  induction a as [|[x|] a IH]; simpl; [reflexivity | now rewrite IH | exact IH].
Qed.

Lemma firstn_succ_slot (m : list (option Qc)) (k : nat) :
  (k < length m)%nat ->
  firstn (S k) m = firstn k m ++ [slot m k].
Proof.
  revert k. induction m as [|x m IH]; intros k H; [simpl in H; lia|].
  destruct k as [|k]; [reflexivity|].
  change (firstn (S (S k)) (x :: m)) with (x :: firstn (S k) m).
  rewrite (IH k) by (simpl in H; lia). reflexivity.
Qed.

(** The state of the signal loop after its first [k] iterations. *)
Lemma signal_loop_prefix (m e : list (option Qc)) (k : nat) :
  (k <= length m)%nat ->
  fold_left (signal_step m e) (seq 0 k) ([], 0%nat)
  = (map (fun i =>
            match slot m i with
            | None => None
            | Some _ =>
                Js.or_else Some
                  (slot e (length (filter_defined (firstn i m)))) None
            end) (seq 0 k),
     length (filter_defined (firstn k m))).
Proof.
  induction k as [|k IH]; intros H; [reflexivity|].
  rewrite seq_S, fold_left_app, IH by lia. cbn [fold_left Nat.add].
  rewrite map_app. cbn [map]. unfold signal_step.
  rewrite (firstn_succ_slot m k) by lia. rewrite filter_defined_app, length_app.
  destruct (slot m k); cbn [filter_defined length]; f_equal; lia.
Qed.

Lemma signal_loop_entry (m e : list (option Qc)) (i : nat) :
  (i < length m)%nat ->
  nth_error (fst (signal_loop m e)) i
  = Some match slot m i with
         | None => None
         | Some _ =>
             Js.or_else Some
               (slot e (length (filter_defined (firstn i m)))) None
         end.
Proof.
  intros H. unfold signal_loop. rewrite signal_loop_prefix by lia.
  cbn [fst]. rewrite nth_error_map, nth_error_nth' with (d := 0%nat)
    by (rewrite length_seq; exact H).
  rewrite seq_nth by exact H. reflexivity.
Qed.

(** The signal line of [calculateMACD], slot by slot.  Where the MACD line
    is absent the signal is absent.  Where the MACD line is defined, with
    [k] defined MACD values before that index, the signal is the [k]-th
    entry of the 9-period EMA of the defined MACD values when that entry is
    a number other than zero, and absent when that entry is absent or is
    zero. *)
Theorem macd_signal_line_slots :
  forall (closes : list Qc) (i : nat),
    (i < length closes)%nat ->
    let r := calculateMACD closes in
    let k := length (filter_defined (firstn i (macd r))) in
    let e := slot (calculateEMA (filter_defined (macd r)) 9) k in
    (slot (macd r) i = None -> nth_error (signal r) i = Some None) /\
    (slot (macd r) i <> None ->
     (forall s, e = Some s -> s <> 0 -> nth_error (signal r) i = Some (Some s)) /\
     (e = Some 0 -> nth_error (signal r) i = Some None) /\
     (e = None -> nth_error (signal r) i = Some None)).
Proof.
  intros closes i Hi r k e. subst r k e.
  cbn [calculateMACD macd signal].
  rewrite signal_loop_entry by (rewrite macd_line_length; exact Hi).
  split.
  - intros H. now rewrite H.
  - intros H. destruct (slot (macd_line closes) i) as [x|]; [|contradiction].
    split; [|split].
    + intros s E N. rewrite E. unfold Js.or_else.
      destruct (Js.eqb s 0) eqn:Z0; [|reflexivity].
      apply eqb_eq in Z0. contradiction.
    + intros E. rewrite E. reflexivity.
    + intros E. rewrite E. reflexivity.
Qed.

Lemma macd_signal_line_slots_witness :
  nth_error (signal (calculateMACD Example.flat_closes)) 3 = Some None.
Proof.
  destruct (macd_signal_line_slots Example.flat_closes 3) as [H _].
  - simpl. lia.
  - apply H. vm_compute. reflexivity.
Defined.

Lemma filter_defined_length_le (l : list (option Qc)) :
  (length (filter_defined l) <= length l)%nat.
Proof. induction l as [|[x|] l IH]; simpl; lia. Qed.

Lemma defined_count_after_gap (l : list (option Qc)) (i n : nat) :
  (forall j, (j < n)%nat -> slot l j = None) ->
  (length (filter_defined (firstn i l)) <= i - n)%nat.
Proof.
  revert i n. induction l as [|x l IH]; intros i n H.
  - rewrite firstn_nil. simpl. lia.
  - destruct i as [|i]; [simpl; lia|]. destruct n as [|n].
    + pose proof (filter_defined_length_le (firstn (S i) (x :: l))) as L.
      rewrite length_firstn in L. lia.
    + pose proof (H 0%nat ltac:(lia)) as H0. unfold slot in H0. simpl in H0.
      subst x. cbn [firstn filter_defined].
      replace (S i - S n)%nat with (i - n)%nat by lia.
      apply IH. intros j Hj. apply (H (S j)). lia.
Qed.

Lemma slot_out_of_range (a : list (option Qc)) (i : nat) :
  (length a <= i)%nat -> slot a i = None.
Proof.
  intros H. unfold slot. now rewrite (proj2 (nth_error_None a i) H).
Qed.

Lemma calculateEMA_warm_up (data : list Qc) (period i : nat) :
  (i + 1 < period)%nat -> slot (calculateEMA data period) i = None.
Proof.
  intros H. destruct (Nat.lt_ge_cases i (length data)) as [Hi|Hi].
  - unfold slot. rewrite calculateEMA_step by (lia || exact Hi).
    destruct (Z.ltb_spec (Z.of_nat i) (Z.of_nat period - 1)); [reflexivity|lia].
  - apply slot_out_of_range. now rewrite calculateEMA_length.
Qed.

Lemma macd_line_entry (closes : list Qc) (i : nat) :
  (i < length closes)%nat ->
  nth_error (macd_line closes) i
  = Some match slot (calculateEMA closes 12) i, slot (calculateEMA closes 26) i with
         | Some a, Some b => Some (a - b)
         | _, _ => None
         end.
Proof.
  intros H. unfold macd_line. now rewrite for_push_nth_error by exact H.
Qed.

Lemma macd_line_warm_up (closes : list Qc) (j : nat) :
  (j < 25)%nat -> slot (macd_line closes) j = None.
Proof.
  intros H. destruct (Nat.lt_ge_cases j (length closes)) as [Hj|Hj].
  - unfold slot at 1. rewrite macd_line_entry by exact Hj.
    rewrite (calculateEMA_warm_up closes 26 j) by lia.
    now destruct (slot (calculateEMA closes 12) j).
  - apply slot_out_of_range. now rewrite macd_line_length.
Qed.

(** The warm-up of [calculateMACD] at an index [i] of the series.  Below
    index 25 the MACD line is absent; from index 25 on it is the fast EMA
    minus the slow EMA, both of which are numbers there.  Below index 33
    the signal line and the histogram are absent. *)
Theorem macd_warm_up :
  forall (closes : list Qc) (i : nat),
    (i < length closes)%nat ->
    let r := calculateMACD closes in
    ((i < 25)%nat -> nth_error (macd r) i = Some None) /\
    ((25 <= i)%nat ->
     exists a b : Qc,
       slot (calculateEMA closes 12) i = Some a /\
       slot (calculateEMA closes 26) i = Some b /\
       nth_error (macd r) i = Some (Some (a - b))) /\
    ((i < 33)%nat ->
     nth_error (signal r) i = Some None /\
     nth_error (histogram r) i = Some None).
Proof.
  intros closes i Hi r. subst r. cbn [calculateMACD macd signal histogram].
  split; [|split].
  - intros H. rewrite macd_line_entry by exact Hi.
    rewrite (calculateEMA_warm_up closes 26 i) by lia.
    now destruct (slot (calculateEMA closes 12) i).
  - intros H. rewrite macd_line_entry by exact Hi.
    destruct (calculateEMA_defined closes 12 i) as [a Ha]; [lia | exact Hi |].
    destruct (calculateEMA_defined closes 26 i) as [b Hb]; [lia | exact Hi |].
    exists a, b. now rewrite Ha, Hb.
  - intros H.
    assert (S : nth_error
                  (fst (signal_loop (macd_line closes)
                          (calculateEMA (filter_defined (macd_line closes)) 9))) i
                = Some None).
    { rewrite signal_loop_entry by (rewrite macd_line_length; exact Hi).
      destruct (slot (macd_line closes) i); [|reflexivity].
      pose proof (defined_count_after_gap (macd_line closes) i 25
                    (macd_line_warm_up closes)) as C.
      rewrite calculateEMA_warm_up by lia. reflexivity. }
    split; [exact S|].
    rewrite for_push_nth_error by (rewrite macd_line_length; exact Hi).
    unfold slot at 2. rewrite S.
    now destruct (slot (macd_line closes) i).
Qed.

Lemma macd_warm_up_witness :
  nth_error (signal (calculateMACD Example.flat_closes)) 30 = Some None /\
  nth_error (histogram (calculateMACD Example.flat_closes)) 30 = Some None.
Proof.
  destruct (macd_warm_up Example.flat_closes 30) as (_ & _ & H).
  - simpl. lia.
  - apply H. lia.
Defined.

(** ** Sentiment and signal *)

(** The sentiment score lies between 0 and 100 for all inputs, however
    large the MACD value or the price deviation. *)
Theorem sentiment_score_between_0_and_100 :
  forall rsi macd priceVsMA20 : Qc,
    0 <= score (determineMarketSentiment rsi macd priceVsMA20) /\
    score (determineMarketSentiment rsi macd priceVsMA20) <= Js.num 100.
Proof.
  intros rsi macd p. unfold determineMarketSentiment. cbn [score].
  match goal with |- context [Js.min (Js.num 100) ?x] => set (s := x) end.
  clearbody s. unfold Js.max, Js.min.
  assert (H100 : 0 <= Js.num 100) by discriminate.
  destruct (ltb_case s (Js.num 100)) as [A|A].
  - destruct (ltb_case 0 s) as [B|B].
    + split; apply Qclt_le_weak; assumption.
    + split; [apply Qcle_refl | exact H100].
  - destruct (ltb_case 0 (Js.num 100)) as [B|B].
    + split; [exact H100 | apply Qcle_refl].
    + split; [apply Qcle_refl | exact H100].
Qed.

(** The overall verdict is shown in green when the confidence exceeds 50,
    in red when it is below 50 and in yellow when it equals 50. *)
Theorem signal_colour_follows_confidence :
  forall data : SignalData,
    let r := calculateSignal data in
    Dashboard.getSignalColor (verdict r)
    = (if (50 <? confidence r)%Z then "text-green-500"
       else if (confidence r <? 50)%Z then "text-red-500"
       else "text-yellow-500")%string.
Proof.
  intros data.
  unfold calculateSignal, buySignals, ma_contribution, rsi_contribution,
    macd_contribution, bollinger_contribution.
  cbn [confidence verdict].
  destruct (gt_u (ma20 data) (ma50 data));
  destruct (Js.ltb (rsi data) (Js.num 30));
  destruct (Js.gtb (rsi data) (Js.num 70));
  destruct (Js.gtb (macdValue data) (macdSignal data));
  destruct (lt_u (currentPrice data) (bollingerLower data));
  destruct (gt_u (currentPrice data) (bollingerUpper data));
  cbn [fst snd]; vm_compute; reflexivity.
Qed.

(** The confidence is determined by the four sub-signal verdicts: each BUY
    counts 25, each NEUTRAL 12.5 and each SELL nothing, and the sum is
    rounded.  Every sub-signal carries one of these three verdicts, and the
    MA-crossover and MACD sub-signals are never NEUTRAL. *)
Theorem confidence_counts_sub_signals :
  forall data : SignalData,
    let r := calculateSignal data in
    let buys := count_verdict "BUY" (signals r) in
    let neutrals := count_verdict "NEUTRAL" (signals r) in
    let sells := count_verdict "SELL" (signals r) in
    (buys + neutrals + sells = 4)%nat /\
    confidence r
    = Js.round (Js.num 25 * Js.num (Z.of_nat buys)
                + Js.twelve_and_half * Js.num (Z.of_nat neutrals)) /\
    sub_signal (sig_maCrossover (signals r)) <> "NEUTRAL"%string /\
    sub_signal (sig_macd (signals r)) <> "NEUTRAL"%string.
Proof.
  intros data.
  unfold calculateSignal, buySignals, ma_contribution, rsi_contribution,
    macd_contribution, bollinger_contribution, count_verdict, sub_signals.
  cbn [confidence verdict signals sig_maCrossover sig_rsi sig_macd
       sig_bollinger].
  destruct (gt_u (ma20 data) (ma50 data));
  destruct (Js.ltb (rsi data) (Js.num 30));
  destruct (Js.gtb (rsi data) (Js.num 70));
  destruct (Js.gtb (macdValue data) (macdSignal data));
  destruct (lt_u (currentPrice data) (bollingerLower data));
  destruct (gt_u (currentPrice data) (bollingerUpper data));
  cbn [fst snd sub_signal]; vm_compute;
  (split; [reflexivity|]); (split; [reflexivity|]); split; discriminate.
Qed.

(** ** Evaluation during warm-up *)

Lemma read_absent (a : list (option Qc)) (i : Z) :
  Forall (eq None) a -> read a i = None.
Proof.
  intros H. unfold read, Js.at_index. destruct (i <? 0)%Z; [reflexivity|].
  destruct (nth_error a (Z.to_nat i)) as [v|] eqn:E; [|reflexivity].
  apply nth_error_In in E. rewrite Forall_forall in H. symmetry. now apply H.
Qed.

Lemma calculateRSI_no_history (closes : list Qc) (period : nat) :
  (length closes <= period)%nat -> Forall (eq None) (calculateRSI closes period).
Proof.
  intros H. apply for_push_Forall. intros _ i Hi.
  destruct (Nat.ltb_spec i period); [reflexivity|lia].
Qed.

Lemma lt_u_irrefl (a : option Qc) : lt_u a a = false.
Proof.
  destruct a as [x|]; [|reflexivity]. simpl. apply ltb_ge, Qcle_refl.
Qed.

Lemma latestIndicators_warm_up (sqrt : Qc -> Qc) (closes : list Qc) :
  (length closes <= 14)%nat ->
  latestIndicators sqrt closes
  = mkIndicators None None None None None None None None None None.
Proof.
  intros H.
  assert (Hm : Forall (eq None) (macd_line closes))
    by (apply macd_line_short; lia).
  unfold latestIndicators.
  cbn [calculateMACD macd signal histogram calculateBollingerBands
       upper middle lower].
  rewrite !(read_absent (calculateSMA closes _)) by (apply calculateSMA_short; lia).
  rewrite (read_absent (calculateRSI closes 14))
    by (apply calculateRSI_no_history; lia).
  rewrite (read_absent (macd_line closes)) by exact Hm.
  rewrite (read_absent (fst (signal_loop _ _)))
    by (unfold signal_loop; apply signal_fold_absent; [exact Hm | constructor]).
  rewrite (read_absent (Js.for_push _ _))
    by (apply for_push_Forall; intros _ i _; now rewrite (slot_absent _ i Hm)).
  rewrite !(read_absent (band _ _ _ _ _ _)) by (apply band_short; lia).
  reflexivity.
Qed.

Lemma signalInput_warm_up (sqrt : Qc -> Qc) (closes : list Qc) :
  (length closes <= 14)%nat ->
  let cp := Js.at_index closes (Z.of_nat (length closes) - 1) in
  signalInput sqrt closes = mkSignalData cp cp cp (Js.num 50) 0 0 cp cp /\
  i_rsi (latestIndicators sqrt closes) = None /\
  i_macd (latestIndicators sqrt closes) = None /\
  i_ma20 (latestIndicators sqrt closes) = None.
Proof.
  intros H cp. subst cp.
  assert (M20 : i_ma20 (latestIndicators sqrt closes) = None)
    by (apply read_absent, calculateSMA_short; lia).
  assert (M50 : i_ma50 (latestIndicators sqrt closes) = None)
    by (apply read_absent, calculateSMA_short; lia).
  assert (R : i_rsi (latestIndicators sqrt closes) = None)
    by (apply read_absent, calculateRSI_no_history; lia).
  assert (M : i_macd (latestIndicators sqrt closes) = None)
    by (apply read_absent, macd_line_short; lia).
  assert (S : i_macdSignal (latestIndicators sqrt closes) = None).
  { apply read_absent. cbn [calculateMACD signal]. unfold signal_loop.
    apply signal_fold_absent; [apply macd_line_short; lia | constructor]. }
  assert (U : i_bollingerUpper (latestIndicators sqrt closes) = None)
    by (apply read_absent, band_short; lia).
  assert (L : i_bollingerLower (latestIndicators sqrt closes) = None)
    by (apply read_absent, band_short; lia).
  split; [|auto]. unfold signalInput. now rewrite M20, M50, R, M, S, U, L.
Qed.

(** While at most 14 closes are available none of the ten latest
    indicator values of the bundle is defined, and the signal and sentiment
    are the same whatever the prices: the verdict is SELL with confidence
    25 (MA crossover and MACD count as SELL, RSI and Bollinger as
    NEUTRAL), and the sentiment is Neutral with score 50. *)
Theorem short_history_reports_sell :
  forall (sqrt : Qc -> Qc) (r : ChartResult) (q : Quote)
         (c : list (option Qc)) (b : Bundle),
    quote r = Some q -> q_close q = Some c ->
    (length (filter_defined c) <= 14)%nat ->
    evaluate sqrt r = Ok b ->
    b_indicators b
    = mkIndicators None None None None None None None None None None /\
    verdict (b_signal b) = "SELL"%string /\
    confidence (b_signal b) = 25%Z /\
    sub_signals (signals (b_signal b))
    = ["SELL"; "NEUTRAL"; "SELL"; "NEUTRAL"]%string /\
    sentiment (b_sentiment b) = "Neutral"%string /\
    score (b_sentiment b) = Js.num 50.
Proof.
  intros sqrt r q c b Hq Hc Hlen He.
  unfold evaluate in He. rewrite Hq, Hc in He.
  destruct (q_high q), (q_low q), (q_volume q), (q_open q); try discriminate.
  injection He as <-. cbn [b_signal b_sentiment b_indicators].
  split; [exact (latestIndicators_warm_up sqrt (filter_defined c) Hlen)|].
  destruct (signalInput_warm_up sqrt (filter_defined c) Hlen) as (S & R & M & M20).
  unfold priceVsMA20Percent. rewrite S, M20.
  cbn [latestIndicators i_rsi i_macd calculateMACD macd] in R, M.
  rewrite R, M.
  unfold calculateSignal, buySignals, ma_contribution, rsi_contribution,
    macd_contribution, bollinger_contribution, sub_signals.
  cbn [ma20 ma50 rsi macdValue macdSignal currentPrice bollingerUpper
       bollingerLower]. unfold gt_u. rewrite !lt_u_irrefl.
  cbn [Js.or_else id].
  repeat split; try reflexivity.
Qed.

Lemma short_history_reports_sell_witness :
  exists b : Bundle,
    evaluate (fun x => x) Example.mismatched_chart = Ok b /\
    verdict (b_signal b) = "SELL"%string /\ confidence (b_signal b) = 25%Z.
Proof.
  eexists. split; [reflexivity|].
  match goal with
  | |- verdict (b_signal ?b) = _ /\ _ =>
      destruct (short_history_reports_sell (fun x => x) Example.mismatched_chart
                  (mkQuote
                     (Some [Some (Js.num 10); Some (Js.num 11); Some (Js.num 12)])
                     (Some [Some (Js.num 11)])
                     (Some [Some (Js.num 9); Some (Js.num 8)])
                     (Some [Some (Js.num 10); None; Some (Js.num 12)])
                     (Some []))
                  [Some (Js.num 10); None; Some (Js.num 12)] b)
        as (_ & V & C & _)
  end; [reflexivity | reflexivity | simpl; lia | reflexivity |].
  exact (conj V C).
Defined.

(** ** Levels come from the data *)

Lemma in_most_recent {A : Type} (k : nat) (l : list A) (x : A) :
  In x (Spec.most_recent k l) -> In x l.
Proof.
  unfold Spec.most_recent. intros H.
  rewrite <- (firstn_skipn (length l - k) l). apply in_or_app. now right.
Qed.

Lemma level_in_series (cmp : Qc -> Qc -> Qc) (a : list Qc) (p : nat -> bool)
    (v : Qc) :
  (forall i, p i = true -> nth_error a i = Some (nth i a 0)) ->
  forall idx,
    In (Some v)
       match map (fun i => nth i a 0) (filter p idx) with
       | [] => [Js.at_index a (Z.of_nat (length a) - 1)]
       | _ :: _ =>
           map Some (sort_numbers cmp
                       (Spec.most_recent 3
                          (map (fun i => nth i a 0) (filter p idx))))
       end ->
    In v a.
Proof.
  intros Hp idx H.
  destruct (map (fun i => nth i a 0) (filter p idx)) as [|c cs] eqn:E.
  - destruct H as [H|[]]. unfold Js.at_index in H.
    destruct (Z.of_nat (length a) - 1 <? 0)%Z; [discriminate|].
    now apply nth_error_In in H.
  - apply in_map_iff in H as (x & Hx & H). injection Hx as ->.
    apply (Permutation_in _ (Permutation_sym (sort_numbers_perm cmp _))) in H.
    apply in_most_recent in H. rewrite <- E in H.
    apply in_map_iff in H as (i & <- & Hi). apply filter_In in Hi as [_ Hi].
    apply Hp in Hi. now apply nth_error_In in Hi.
Qed.

(** Every number among the returned support levels is one of the lows,
    and every number among the returned resistance levels is one of the
    highs, whatever the lengths of the two series. *)
Theorem levels_are_taken_from_the_series :
  forall (lows highs : list Qc) (v : Qc),
    (In (Some v) (support (findSupportResistance lows highs)) -> In v lows) /\
    (In (Some v) (resistance (findSupportResistance lows highs)) -> In v highs).
Proof.
  intros lows highs v.
  rewrite (findSupportResistance_unfold lows highs _ _
             (pivot_loop_candidates lows highs)).
  cbn [support resistance]. split.
  - apply level_in_series. apply is_support_defined.
  - apply level_in_series. apply is_resistance_defined.
Qed.

Lemma levels_are_taken_from_the_series_witness :
  In (Js.num 7) [Js.num 7].
Proof.
  apply (levels_are_taken_from_the_series [Js.num 7] [Js.num 9] (Js.num 7)).
  left. reflexivity.
Defined.

(** ** Candles *)

Lemma combine_seq_entry {A : Type} (t : list A) (s i : nat) (x : A) :
  nth_error t i = Some x ->
  nth_error (combine (seq s (length t)) t) i = Some ((s + i)%nat, x).
Proof.
  revert s i. induction t as [|y t IH]; intros s i H.
  - destruct i; discriminate.
  - destruct i as [|i]; simpl in *.
    + injection H as ->. now rewrite Nat.add_0_r.
    + rewrite (IH (S s) i H). f_equal. f_equal. lia.
Qed.

Lemma candleData_entry (t : list Z) (o h l c : list Qc) (i : nat) (ts : Z) :
  nth_error t i = Some ts ->
  nth_error (candleData t o h l c) i
  = Some (mkCandle ts (nth_error o i) (nth_error h i)
                   (nth_error l i) (nth_error c i)).
Proof.
  intros H. unfold candleData.
  rewrite nth_error_map, (combine_seq_entry t 0 i ts H). reflexivity.
Qed.

(** When the five quote arrays contain no null, the candle at position [i]
    carries the [i]-th timestamp together with the [i]-th open, high, low
    and close as received; if the arrays are as long as the timestamp
    array, no field of any candle is undefined. *)
Theorem candles_of_null_free_input :
  forall (sqrt : Qc -> Qc) (t : list Z) (o h l c v : list Qc)
         (b : Bundle) (i : nat) (ts : Z),
    evaluate sqrt
      (mkChartResult (Some t)
         (Some (mkQuote (Some (map Some o)) (Some (map Some h))
                        (Some (map Some l)) (Some (map Some c))
                        (Some (map Some v))))) = Ok b ->
    nth_error t i = Some ts ->
    nth_error (b_candles b) i
    = Some (mkCandle ts (nth_error o i) (nth_error h i)
                     (nth_error l i) (nth_error c i)) /\
    (length o = length t -> length h = length t ->
     length l = length t -> length c = length t ->
     exists oi hi li ci : Qc,
       nth_error (b_candles b) i
       = Some (mkCandle ts (Some oi) (Some hi) (Some li) (Some ci))).
Proof.
  intros sqrt t o h l c v b i ts He Ht.
  unfold evaluate in He. cbn [quote q_close q_high q_low q_volume q_open
    timestamp] in He. injection He as <-. cbn [b_candles].
  rewrite !filter_defined_map_Some. rewrite (candleData_entry _ _ _ _ _ _ _ Ht).
  split; [reflexivity|].
  intros Lo Lh Ll Lc.
  assert (Hi : (i < length t)%nat)
    by (apply nth_error_Some; rewrite Ht; discriminate).
  rewrite (read_in_range o i), (read_in_range h i), (read_in_range l i),
    (read_in_range c i) by lia.
  eauto.
Qed.

Lemma candles_of_null_free_input_witness :
  exists b : Bundle,
    nth_error (b_candles b) 1
    = Some (mkCandle 200 (Some (Js.num 2)) (Some (Js.num 4))
                     (Some (Js.num 1)) (Some (Js.num 3))).
Proof.
  eexists.
  apply (candles_of_null_free_input (fun x => x) [100; 200]%Z
           [Js.num 1; Js.num 2] [Js.num 3; Js.num 4]
           [Js.num 0; Js.num 1] [Js.num 2; Js.num 3] [Js.num 5; Js.num 6]
           _ 1 200%Z eq_refl eq_refl).
Defined.

(** ** Further edge cases *)

(** With fewer than five lows the scan examines no index, and the detector
    returns the last low as the only support and the last high as the only
    resistance; the scan range is taken from the lows alone, so this holds
    however many highs there are. *)
Theorem levels_of_a_short_series :
  forall lows highs : list Qc,
    (length lows <= 4)%nat ->
    findSupportResistance lows highs
    = mkLevels [Js.at_index lows (Z.of_nat (length lows) - 1)]
               [Js.at_index highs (Z.of_nat (length highs) - 1)].
Proof.
  intros lows highs H.
  rewrite (findSupportResistance_unfold lows highs _ _
             (pivot_loop_candidates lows highs)).
  replace (length lows - 4)%nat with 0%nat by lia. reflexivity.
Qed.

Lemma levels_of_a_short_series_witness :
  findSupportResistance [Js.num 3; Js.num 1; Js.num 2]
                        [Js.num 5; Js.num 9; Js.num 4; Js.num 6; Js.num 5; Js.num 7]
  = mkLevels [Some (Js.num 2)] [Some (Js.num 7)].
Proof.
  apply (levels_of_a_short_series [Js.num 3; Js.num 1; Js.num 2]
           [Js.num 5; Js.num 9; Js.num 4; Js.num 6; Js.num 5; Js.num 7]).
  simpl. lia.
Defined.

(** For a positive period no longer than the series, the first number of
    the EMA output, at index [period - 1], is the SMA at that index. *)
Theorem ema_starts_at_the_sma :
  forall (data : list Qc) (period : nat),
    (1 <= period <= length data)%nat ->
    nth_error (calculateEMA data period) (period - 1)
    = nth_error (calculateSMA data period) (period - 1) /\
    exists v : Qc,
      nth_error (calculateSMA data period) (period - 1) = Some (Some v).
Proof.
  intros data period H.
  rewrite calculateSMA_value by lia.
  rewrite calculateEMA_step by lia.
  destruct (Z.ltb_spec (Z.of_nat (period - 1)) (Z.of_nat period - 1)); [lia|].
  destruct (Z.eqb_spec (Z.of_nat (period - 1)) (Z.of_nat period - 1)); [|lia].
  change 0%Z with (Z.of_nat 0). rewrite slice_window by lia.
  replace (period - 1 + 1 - period)%nat with 0%nat by lia.
  rewrite Nat.sub_0_r. split; [reflexivity | eauto].
Qed.

Lemma ema_starts_at_the_sma_witness :
  nth_error (calculateEMA [Js.num 2; Js.num 4; Js.num 9] 2) 1
  = nth_error (calculateSMA [Js.num 2; Js.num 4; Js.num 9] 2) 1.
Proof.
  apply (ema_starts_at_the_sma [Js.num 2; Js.num 4; Js.num 9] 2).
  simpl. lia.
Defined.

